(** * Sapio script library: wire format, numeric encoding, analyzers and
      the restricted interpreter

    A shallow embedding of
    - [sapio_bitcoinlib/script.py]: [CScriptOp], [CScriptNum], [CScript]
      ([__coerce_instance], [__new__], [raw_iter], [__iter__],
      [GetSigOpCount]) and [FindAndDelete];
    - [bitcoin_script_compiler/opcodes.py]: [bool_of_stack_item], [handle],
      [ConditionStack] and [interpret].

    Conventions.  A Python [bytes] value is a [list byte]; a Python [int] is
    a [Z]; an opcode ([CScriptOp], an interned [int] subclass with values
    0..255) is a [byte].  Exceptions are values of [exn] carried by the
    error monad [exc].  A generator is a finite [stream] that ends either
    normally or with a raised exception. *)

From Stdlib Require Import ZArith List Bool Lia.
From Stdlib Require Import Strings.Byte.
From Stdlib Require Import Sorting.Sorted.
Import ListNotations.

#[local] Open Scope Z_scope.

(* ------------------------------------------------------------------ *)
(** ** Python values: bytes, exceptions, generators *)

Definition bytes := list byte.

(** [int(b)] for one element of a [bytes] object. *)
Definition int_of_byte (b : byte) : Z := Z.of_N (Byte.to_N b).

(** The element built by [bytes([z])] when [0 <= z <= 255]. *)
Definition byte_of_int (z : Z) : byte :=
  match Byte.of_N (Z.to_N z) with
  | Some b => b
  | None => x00
  end.

(** [len(s)] *)
Definition len {A : Type} (s : list A) : Z := Z.of_nat (length s).

(** [s[i]] for an index known to be in range. *)
Definition getitem (s : bytes) (i : Z) : byte := nth (Z.to_nat i) s x00.

(** [s[i:j]] for [0 <= i]; Python clips the slice at the end of [s]. *)
Definition slice (s : bytes) (i j : Z) : bytes :=
  firstn (Z.to_nat (j - i)) (skipn (Z.to_nat i) s).

(** [s[i:]] *)
Definition slice_from (s : bytes) (i : Z) : bytes := skipn (Z.to_nat i) s.

Definition bytes_eqb (a b : bytes) : bool :=
  if list_eq_dec Byte.byte_eq_dec a b then true else false.

(** The exception classes the modelled code raises.  The message strings are
    not modelled; [CScriptTruncatedPushDataError] keeps its [data] field. *)
Inductive exn : Type :=
| ValueError
| AssertionError
| CScriptInvalidError
| CScriptTruncatedPushDataError (data : bytes)
| ConditionStackError.

Inductive exc (A : Type) : Type :=
| Return (a : A)
| Raise (e : exn).
Arguments Return {A} a.
Arguments Raise {A} e.

Definition bind {A B : Type} (m : exc A) (k : A -> exc B) : exc B :=
  match m with
  | Return a => k a
  | Raise e => Raise e
  end.

Notation "x <- m ;; k" := (bind m (fun x => k))
  (at level 61, m at next level, right associativity).

(** A finite generator: the values yielded so far, ended by exhaustion
    ([SNil]) or by an exception raised in the generator body ([SRaise]). *)
Inductive stream (A : Type) : Type :=
| SNil
| SCons (a : A) (rest : stream A)
| SRaise (e : exn).
Arguments SNil {A}.
Arguments SCons {A} a rest.
Arguments SRaise {A} e.

(** The values yielded before the generator stops. *)
Fixpoint yielded {A : Type} (s : stream A) : list A :=
  match s with
  | SNil => []
  | SCons a rest => a :: yielded rest
  | SRaise _ => []
  end.

(** How the generator stops: [None] for exhaustion, [Some e] for a raise. *)
Fixpoint outcome {A : Type} (s : stream A) : option exn :=
  match s with
  | SNil => None
  | SCons _ rest => outcome rest
  | SRaise e => Some e
  end.

Fixpoint smap {A B : Type} (f : A -> B) (s : stream A) : stream B :=
  match s with
  | SNil => SNil
  | SCons a rest => SCons (f a) (smap f rest)
  | SRaise e => SRaise e
  end.

(* ------------------------------------------------------------------ *)
(** ** static_types *)

(** Modelled from the spec: [sapio_bitcoinlib/static_types.py] is not among
    the sources.  Its [min_int64] and [max_int64] are the bounds of the
    signed 64-bit range ("signed overflow at the 64-bit boundary"), and
    [max_uint32] is the largest unsigned 32-bit value. *)
Definition min_int64 : Z := - 2 ^ 63.
Definition max_int64 : Z := 2 ^ 63 - 1.
Definition max_uint32 : Z := 2 ^ 32 - 1.

(* ------------------------------------------------------------------ *)
(** ** opcodes.py: [ConditionStack] *)

Module ConditionStack.

Record t : Type := mk { stack_size : Z; first_false_position : Z }.

Section Sentinel.
    (** [ConditionStack.NO_FALSE], bound to [max_uint32] in the source. *)
Variable NO_FALSE : Z.

Definition init : t := mk 0 NO_FALSE.

Definition empty (self : t) : bool := stack_size self =? 0.

Definition all_true (self : t) : bool :=
      first_false_position self =? NO_FALSE.

Definition push_back (self : t) (b : bool) : t :=
      let ffp :=
        if (first_false_position self =? NO_FALSE) && negb b
        then stack_size self
        else first_false_position self in
      mk (stack_size self + 1) ffp.

Definition pop_back (self : t) : exc t :=
      if negb (stack_size self >? 0) then Raise ConditionStackError
      else
        let size := stack_size self - 1 in
        Return (mk size (if first_false_position self =? size
                         then NO_FALSE
                         else first_false_position self)).

Definition toggle_top (self : t) : exc t :=
      if negb (stack_size self >? 0) then Raise ConditionStackError
      else if first_false_position self =? NO_FALSE
      then Return (mk (stack_size self) (stack_size self - 1))
      else if first_false_position self =? stack_size self - 1
      then Return (mk (stack_size self) NO_FALSE)
      else Return self.

    (** States obtained from a fresh tracker by operations that do not
        raise. *)
Inductive reachable : t -> Prop :=
    | reach_init : reachable init
    | reach_push s b : reachable s -> reachable (push_back s b)
    | reach_pop s s' : reachable s -> pop_back s = Return s' -> reachable s'
    | reach_toggle s s' :
        reachable s -> toggle_top s = Return s' -> reachable s'.

    (** The branch-state invariant of the data model. *)
Definition marker_ok (s : t) : Prop :=
      first_false_position s = NO_FALSE
      \/ first_false_position s < stack_size s.
End Sentinel.

End ConditionStack.

(* ------------------------------------------------------------------ *)
(** ** script.py: [CScriptNum] *)

(** A [CScriptNum] object is represented by its [value] field. *)
Module CScriptNum.

  (** The [while absvalue:] loop of [encode].  Every round shifts
      [absvalue] right by eight bits, so [log2 absvalue + 1] rounds are
      enough ([encode_loop_bytes] below shows that the fuel [encode] passes
      is never exhausted before [absvalue] reaches 0). *)
Fixpoint encode_loop (fuel : nat) (absvalue : Z) (r : bytes) : bytes :=
    match fuel with
    | O => r
    | S fuel' =>
        if absvalue =? 0 then r
        else encode_loop fuel' (Z.shiftr absvalue 8)
               (r ++ [byte_of_int (Z.land absvalue 255)])
    end.

  (** [CScriptNum.encode].  [bytes([len(r)])] raises [ValueError] when
      [len(r)] does not fit in one byte. *)
Definition encode (value : Z) : exc bytes :=
    if value =? 0 then Return []
    else
      let neg := value <? 0 in
      let absvalue := if neg then - value else value in
      let r := encode_loop (S (Z.to_nat (Z.log2 absvalue))) absvalue [] in
      let r :=
        if negb (Z.land (int_of_byte (last r x00)) 128 =? 0)
        then r ++ [byte_of_int (if neg then 128 else 0)]
        else if neg
        then removelast r
               ++ [byte_of_int (Z.lor (int_of_byte (last r x00)) 128)]
        else r in
      if len r <=? 255 then Return (byte_of_int (len r) :: r)
      else Raise ValueError.

  (** The [for i, byte in enumerate(value)] loop of [decode]. *)
Fixpoint decode_loop (i : Z) (value : bytes) (result : Z) : Z :=
    match value with
    | [] => result
    | byte :: rest =>
        decode_loop (i + 1) rest
          (Z.lor result (Z.shiftl (int_of_byte byte) (8 * i)))
    end.

  (** [CScriptNum.decode]; it returns a plain Python [int]. *)
Definition decode (vch : bytes) : Z :=
    let value := slice_from vch 1 in
    if len value =? 0 then 0
    else
      let result := decode_loop 0 value 0 in
      if int_of_byte (last value x00) >=? 128
      then
        let num_mask := Z.shiftr (2 ^ (len value * 8) - 1) 1 in
        Z.land result num_mask * -1
      else result.

  (** [CScriptNum.__sub__] on the [value] fields; the [assert] is the
      checked subtraction. *)
Definition sub (self other : Z) : exc Z :=
    let rhs := other in
    if (rhs =? 0)
       || ((rhs >? 0) && (self >=? min_int64 + rhs))
       || ((rhs <? 0) && (self <=? max_int64 + rhs))
    then Return (self - rhs)
    else Raise AssertionError.

End CScriptNum.

(** Little-endian value of a byte string (used to state what the loops of
    [CScriptNum] compute). *)
Fixpoint le_value (bs : bytes) : Z :=
  match bs with
  | [] => 0
  | b :: rest => int_of_byte b + 256 * le_value rest
  end.

(** The bytes [CScriptNum.encode_loop] appends, least significant first. *)
Fixpoint le_bytes (fuel : nat) (a : Z) : bytes :=
  match fuel with
  | O => []
  | S fuel' =>
      if a =? 0 then []
      else byte_of_int (Z.land a 255) :: le_bytes fuel' (Z.shiftr a 8)
  end.

(** The payload [encode] builds from the magnitude bytes [bs]. *)
Definition sign_payload (neg : bool) (bs : bytes) : bytes :=
  if negb (Z.land (int_of_byte (last bs x00)) 128 =? 0)
  then bs ++ [byte_of_int (if neg then 128 else 0)]
  else if neg
  then removelast bs ++ [byte_of_int (Z.lor (int_of_byte (last bs x00)) 128)]
  else bs.

(* ------------------------------------------------------------------ *)
(** ** script.py: opcodes and [CScriptOp] *)

Definition OP_0 : byte := x00.
Definition OP_PUSHDATA1 : byte := x4c.
Definition OP_PUSHDATA2 : byte := x4d.
Definition OP_PUSHDATA4 : byte := x4e.
Definition OP_1NEGATE : byte := x4f.
Definition OP_1 : byte := x51.
Definition OP_16 : byte := x60.
Definition OP_IF : byte := x63.
Definition OP_NOTIF : byte := x64.
Definition OP_ELSE : byte := x67.
Definition OP_ENDIF : byte := x68.
Definition OP_VERIFY : byte := x69.
Definition OP_IFDUP : byte := x73.
Definition OP_DROP : byte := x75.
Definition OP_DUP : byte := x76.
Definition OP_EQUALVERIFY : byte := x88.
Definition OP_1SUB : byte := x8c.
Definition OP_WITHIN : byte := xa5.
Definition OP_SHA256 : byte := xa8.
Definition OP_CHECKSIG : byte := xac.
Definition OP_CHECKSIGVERIFY : byte := xad.
Definition OP_CHECKMULTISIG : byte := xae.
Definition OP_CHECKMULTISIGVERIFY : byte := xaf.
Definition OP_CHECKLOCKTIMEVERIFY : byte := xb1.
Definition OP_CHECKSEQUENCEVERIFY : byte := xb2.
Definition OP_CHECKTEMPLATEVERIFY : byte := xb3.
Definition OP_INVALIDOPCODE : byte := xff.

(** Comparison of two opcodes as Python [int]s. *)
Notation "a == b" := (Byte.eqb a b) (at level 70, no associativity).
Notation "a <=! b" := (int_of_byte a <=? int_of_byte b)
  (at level 70, no associativity).

(** [struct.pack(b"<H", n)] and [struct.pack(b"<I", n)] for [n] in range. *)
Definition pack_H (n : Z) : bytes :=
  [byte_of_int (Z.land n 255); byte_of_int (Z.land (Z.shiftr n 8) 255)].
Definition pack_I (n : Z) : bytes :=
  [byte_of_int (Z.land n 255); byte_of_int (Z.land (Z.shiftr n 8) 255);
   byte_of_int (Z.land (Z.shiftr n 16) 255);
   byte_of_int (Z.land (Z.shiftr n 24) 255)].

Module CScriptOp.

Definition encode_op_pushdata (d : bytes) : exc bytes :=
    if len d <? 0x4C then Return ([byte_of_int (len d)] ++ d)
    else if len d <=? 0xFF then Return (x4c :: [byte_of_int (len d)] ++ d)
    else if len d <=? 0xFFFF then Return (x4d :: pack_H (len d) ++ d)
    else if len d <=? 0xFFFFFFFF then Return (x4e :: pack_I (len d) ++ d)
    else Raise ValueError.

Definition encode_op_n (n : Z) : exc byte :=
    if negb ((0 <=? n) && (n <=? 16)) then Raise ValueError
    else if n =? 0 then Return OP_0
    else Return (byte_of_int (int_of_byte OP_1 + n - 1)).

Definition decode_op_n (self : byte) : exc Z :=
    if self == OP_0 then Return 0
    else if negb ((self == OP_0) || ((OP_1 <=! self) && (self <=! OP_16)))
    then Raise ValueError
    else Return (int_of_byte self - int_of_byte OP_1 + 1).

Definition is_small_int (self : byte) : bool :=
    ((0x51 <=? int_of_byte self) && (int_of_byte self <=? 0x60))
    || (int_of_byte self =? 0).

End CScriptOp.

(* ------------------------------------------------------------------ *)
(** ** script.py: [CScript] *)

(** What [raw_iter] yields: [(opcode, data, sop_idx)]. *)
Definition instr : Type := byte * option bytes * Z.

(** What cooked iteration yields, and what [handle] receives: push data
    ([bytes]), a decoded small integer ([int]) or an opcode ([CScriptOp]). *)
Inductive item : Type :=
| IBytes (d : bytes)
| IInt (n : Z)
| IOp (op : byte).

(** The values [CScript.__coerce_instance] accepts, by Python class. *)
Inductive coercable : Type :=
| CoOp (op : byte)
| CoNum (value : Z)
| CoInt (n : Z)
| CoScript (s : bytes)
| CoBytes (b : bytes).

Module CScript.

  (** One round of the [while] loop of [raw_iter], entered with
      [i < len(self)]: the tuple it yields and the next value of [i], or the
      exception it raises. *)
Definition raw_step (self : bytes) (i : Z) : exc (instr * Z) :=
    let sop_idx := i in
    let opcode := getitem self i in
    let i := i + 1 in
    if int_of_byte opcode >? int_of_byte OP_PUSHDATA4
    then Return ((opcode, None, sop_idx), i)
    else
      header <-
        (if int_of_byte opcode <? int_of_byte OP_PUSHDATA1
         then Return (int_of_byte opcode, i)
         else if opcode == OP_PUSHDATA1 then
           if i >=? len self then Raise CScriptInvalidError
           else Return (int_of_byte (getitem self i), i + 1)
         else if opcode == OP_PUSHDATA2 then
           if i + 1 >=? len self then Raise CScriptInvalidError
           else Return (int_of_byte (getitem self i)
                        + Z.shiftl (int_of_byte (getitem self (i + 1))) 8,
                        i + 2)
         else if opcode == OP_PUSHDATA4 then
           if i + 3 >=? len self then Raise CScriptInvalidError
           else Return (int_of_byte (getitem self i)
                        + Z.shiftl (int_of_byte (getitem self (i + 1))) 8
                        + Z.shiftl (int_of_byte (getitem self (i + 2))) 16
                        + Z.shiftl (int_of_byte (getitem self (i + 3))) 24,
                        i + 4)
         else Raise AssertionError) ;;
      let '(datasize, i) := header in
      let data := slice self i (i + datasize) in
      if len data <? datasize then Raise (CScriptTruncatedPushDataError data)
      else Return ((opcode, Some data, sop_idx), i + datasize).

  (** [raw_iter] from index [i].  Every round advances [i] by at least one,
      so [len(self) - i] rounds exhaust the buffer
      ([raw_iter_loop_fuel] below). *)
Fixpoint raw_iter_loop (fuel : nat) (self : bytes) (i : Z) : stream instr :=
    match fuel with
    | O => SNil
    | S fuel' =>
        if i <? len self then
          match raw_step self i with
          | Raise e => SRaise e
          | Return (yield, i') => SCons yield (raw_iter_loop fuel' self i')
          end
        else SNil
    end.

Definition raw_iter (self : bytes) : stream instr :=
    raw_iter_loop (length self) self 0.

  (** The body of [__iter__] over the tuples of [raw_iter]. *)
Fixpoint cooked (raw : stream instr) : stream item :=
    match raw with
    | SNil => SNil
    | SRaise e => SRaise e
    | SCons (opcode, data, sop_idx) rest =>
        match data with
        | Some data => SCons (IBytes data) (cooked rest)
        | None =>
            if CScriptOp.is_small_int opcode then
              match CScriptOp.decode_op_n opcode with
              | Return n => SCons (IInt n) (cooked rest)
              | Raise e => SRaise e
              end
            else SCons (IOp opcode) (cooked rest)
        end
    end.

  (** [CScript.__iter__] *)
Definition iter (self : bytes) : stream item := cooked (raw_iter self).

Section Build.
    (** [bignum.bn2vch], which is not among the sources. *)
Variable bn2vch : Z -> bytes.

    (** [CScript.__coerce_instance] *)
Definition coerce_instance (other : coercable) : exc bytes :=
      match other with
      | CoOp op => Return [op]
      | CoNum value =>
          if value =? 0 then Return [OP_0] else CScriptNum.encode value
      | CoInt other =>
          if (0 <=? other) && (other <=? 16) then
            op <- CScriptOp.encode_op_n other ;; Return [op]
          else if other =? -1 then Return [OP_1NEGATE]
          else CScriptOp.encode_op_pushdata (bn2vch other)
      | CoScript s => Return s
      | CoBytes b => CScriptOp.encode_op_pushdata b
      end.

    (** [CScript.__new__] on an iterable of coercible values:
        [b"".join(coerce_iterable(value))]. *)
Fixpoint new (value : list coercable) : exc bytes :=
      match value with
      | [] => Return []
      | instance :: rest =>
          b <- coerce_instance instance ;;
          bs <- new rest ;;
          Return (b ++ bs)
      end.
End Build.

  (** The loop of [GetSigOpCount] over the tuples of [raw_iter]. *)
Fixpoint sigop_loop (fAccurate : bool) (raw : stream instr)
      (n : Z) (lastOpcode : byte) : exc Z :=
    match raw with
    | SNil => Return n
    | SRaise e => Raise e
    | SCons (opcode, data, sop_idx) rest =>
        n <-
          (if (opcode == OP_CHECKSIG) || (opcode == OP_CHECKSIGVERIFY)
           then Return (n + 1)
           else if (opcode == OP_CHECKMULTISIG)
                   || (opcode == OP_CHECKMULTISIGVERIFY)
           then
             if fAccurate && ((OP_1 <=! lastOpcode) && (lastOpcode <=! OP_16))
             then k <- CScriptOp.decode_op_n opcode ;; Return (n + k)
             else Return (n + 20)
           else Return n) ;;
        sigop_loop fAccurate rest n opcode
    end.

Definition GetSigOpCount (self : bytes) (fAccurate : bool) : exc Z :=
    sigop_loop fAccurate (raw_iter self) 0 OP_INVALIDOPCODE.

End CScript.

(** The loop of [FindAndDelete]; the state is [(r, last_sop_idx, skip)]. *)
Fixpoint FindAndDelete_loop (script sig : bytes) (raw : stream instr)
    (r : bytes) (last_sop_idx : Z) (skip : bool) : exc (bytes * Z * bool) :=
  match raw with
  | SNil => Return (r, last_sop_idx, skip)
  | SRaise e => Raise e
  | SCons (opcode, data, sop_idx) rest =>
      let r := if negb skip then r ++ slice script last_sop_idx sop_idx
               else r in
      let last_sop_idx := sop_idx in
      let skip := bytes_eqb (slice script sop_idx (sop_idx + len sig)) sig in
      FindAndDelete_loop script sig rest r last_sop_idx skip
  end.

Definition FindAndDelete (script sig : bytes) : exc bytes :=
  st <- FindAndDelete_loop script sig (CScript.raw_iter script) [] 0 true ;;
  let '(r, last_sop_idx, skip) := st in
  Return (if negb skip then r ++ slice_from script last_sop_idx else r).

(* ------------------------------------------------------------------ *)
(** ** opcodes.py: the interpreter *)

(** [ZERO_enc] and [ONE_enc], the values of [CScriptNum.encode] at 0 and 1
    computed when the module is loaded ([encode_constants] below). *)
Definition ZERO_enc : bytes := [].
Definition ONE_enc : bytes := [x01; x01].

Fixpoint bool_of_stack_item_loop (n idx : Z) (v : bytes) : bool :=
  match v with
  | [] => false
  | char :: rest =>
      if negb (int_of_byte char =? 0) then
        if (idx =? n - 1) && (int_of_byte char =? 0x80) then false else true
      else bool_of_stack_item_loop n (idx + 1) rest
  end.

Definition bool_of_stack_item (v : bytes) : bool :=
  bool_of_stack_item_loop (len v) 0 v.

(** The execution stack is a Python list used at its end only; its last
    element (the top, [stack[-1]]) is the head of the Rocq list. *)
Definition exec_stack : Type := list bytes.

(** The state [handle] mutates, returned with its boolean result. *)
Definition handled : Type := bool * exec_stack * ConditionStack.t.

(** The [OP_WITHIN] arm of [handle]. *)
Definition within_arm (stack : exec_stack) (handle_branch : ConditionStack.t)
  : exc handled :=
  match stack with
  | upper :: lower :: num :: stack' =>
      let upper := CScriptNum.decode upper in
      let lower := CScriptNum.decode lower in
      let num := CScriptNum.decode num in
      let ret := (lower <=? num) && (num <? upper) in
      Return (true, (if ret then [x00] else []) :: stack', handle_branch)
  | _ => Return (false, stack, handle_branch)
  end.

(** The [OP_1SUB] arm of [handle].  [CScriptNum.decode] returns an [int], so
    the subtraction is the one of Python integers. *)
Definition sub1_arm (stack : exec_stack) (handle_branch : ConditionStack.t)
  : exc handled :=
  match stack with
  | [] => Return (false, stack, handle_branch)
  | top :: stack' =>
      let num := CScriptNum.decode top - 1 in
      e <- CScriptNum.encode num ;;
      Return (true, e :: stack', handle_branch)
  end.

(** The [OP_IF]/[OP_NOTIF] arm of [handle]. *)
Definition if_arm (op : byte) (should_execute : bool)
    (stack : exec_stack) (handle_branch : ConditionStack.t) : exc handled :=
  if should_execute then
    match stack with
    | [] => Return (false, stack, handle_branch)
    | cond :: stack' =>
        if len cond >? 1 then Return (false, stack', handle_branch)
        else if (len cond =? 1) && negb (int_of_byte (getitem cond 0) =? 1)
        then Return (false, stack', handle_branch)
        else
          let branch_value := bool_of_stack_item cond in
          let branch_value :=
            if op == OP_NOTIF then negb branch_value else branch_value in
          Return (true, stack',
                  ConditionStack.push_back max_uint32 handle_branch
                    branch_value)
    end
  else
    Return (true, stack,
            ConditionStack.push_back max_uint32 handle_branch false).

(** The [if isinstance(op, CScriptOp):] block of [handle]. *)
Definition handle_opcode (op : byte) (should_execute : bool)
    (stack : exec_stack) (handle_branch : ConditionStack.t) : exc handled :=
  let need (k : Z) (then_ : exc handled) : exc handled :=
    if len stack <? k then Return (false, stack, handle_branch) else then_ in
  if (op == OP_IF) || (op == OP_NOTIF) then
    if_arm op should_execute stack handle_branch
  else if op == OP_ELSE then
    if ConditionStack.empty handle_branch
    then Return (false, stack, handle_branch)
    else hb <- ConditionStack.toggle_top max_uint32 handle_branch ;;
         Return (true, stack, hb)
  else if op == OP_ENDIF then
    if ConditionStack.empty handle_branch
    then Return (false, stack, handle_branch)
    else hb <- ConditionStack.pop_back max_uint32 handle_branch ;;
         Return (true, stack, hb)
  else if negb should_execute then Return (true, stack, handle_branch)
  else if op == OP_SHA256 then
    need 1 (Return (true, stack, handle_branch))
  else if op == OP_1SUB then sub1_arm stack handle_branch
  else if op == OP_WITHIN then within_arm stack handle_branch
  else if op == OP_0 then Return (true, ZERO_enc :: stack, handle_branch)
  else if op == OP_1 then Return (true, ONE_enc :: stack, handle_branch)
  else if op == OP_DROP then
    need 1 (Return (true, tl stack, handle_branch))
  else if op == OP_IFDUP then
    match stack with
    | [] => Return (false, stack, handle_branch)
    | v :: _ =>
        if bool_of_stack_item v then Return (true, v :: stack, handle_branch)
        else Return (true, stack, handle_branch)
    end
  else if op == OP_DUP then
    match stack with
    | [] => Return (false, stack, handle_branch)
    | v :: _ => Return (true, v :: stack, handle_branch)
    end
  else if op == OP_CHECKSIGVERIFY then
    need 2 (Return (true, tl (tl stack), handle_branch))
  else if op == OP_CHECKTEMPLATEVERIFY then
    need 1 (Return (true, stack, handle_branch))
  else if op == OP_CHECKLOCKTIMEVERIFY then
    need 1 (Return (true, stack, handle_branch))
  else if op == OP_CHECKSEQUENCEVERIFY then
    need 1 (Return (true, stack, handle_branch))
  else if op == OP_EQUALVERIFY then
    match stack with
    | ach :: bch :: stack' =>
        if negb (bytes_eqb ach bch) then Return (false, stack', handle_branch)
        else Return (true, stack', handle_branch)
    | _ => Return (false, stack, handle_branch)
    end
  else if op == OP_VERIFY then
    match stack with
    | [] => Return (false, stack, handle_branch)
    | bch :: stack' =>
        if negb (bool_of_stack_item bch)
        then Return (false, stack', handle_branch)
        else Return (true, stack', handle_branch)
    end
  else Raise ValueError.

(** [handle].  The three [isinstance] tests are successive [if]s, and
    [CScriptOp] is a subclass of [int]: an opcode passes both the [int] test
    and the [CScriptOp] test. *)
Definition handle (op : item) (stack : exec_stack)
    (handle_branch : ConditionStack.t) : exc handled :=
  let should_execute := ConditionStack.all_true max_uint32 handle_branch in
  (* if isinstance(op, bytes): *)
  let stack :=
    match op with
    | IBytes d => if should_execute then d :: stack else stack
    | _ => stack
    end in
  (* if isinstance(op, int): *)
  stack <-
    match op with
    | IInt n =>
        if should_execute
        then e <- CScriptNum.encode n ;; Return (e :: stack)
        else Return stack
    | IOp n =>
        if should_execute
        then e <- CScriptNum.encode (int_of_byte n) ;; Return (e :: stack)
        else Return stack
    | IBytes _ => Return stack
    end ;;
  (* if isinstance(op, CScriptOp): *)
  match op with
  | IOp op => handle_opcode op should_execute stack handle_branch
  | _ => Return (true, stack, handle_branch)
  end.

(** The [for op in iter(s)] loop of [interpret]. *)
Fixpoint interpret_loop (ops : stream item) (stack : exec_stack)
    (handle_branch : ConditionStack.t) : exc bool :=
  match ops with
  | SNil => Return true
  | SRaise e => Raise e
  | SCons op rest =>
      match handle op stack handle_branch with
      | Raise ConditionStackError => Return false
      | Raise e => Raise e
      | Return (ok, stack, handle_branch) =>
          if negb ok then Return false
          else interpret_loop rest stack handle_branch
      end
  end.

Definition interpret (s : bytes) : exc bool :=
  interpret_loop (CScript.iter s) [] (ConditionStack.init max_uint32).

(** An active tracker of any depth. *)
Definition active (size : Z) : ConditionStack.t :=
  ConditionStack.mk size max_uint32.

(** A stack item: length byte 9, then the nine-byte
    encoding of [-2^64]. *)
Definition below_int64 : bytes :=
  [x09; x00; x00; x00; x00; x00; x00; x00; x00; x81].

(* ------------------------------------------------------------------ *)
(** ** The wire format, as the specification words it *)

(** Number of length bytes that follow a push opcode: 1, 2 and 4 for the
    three reserved push opcodes, none for an inline length. *)
Definition hdr_len (op : byte) : Z :=
  if op == OP_PUSHDATA1 then 1
  else if op == OP_PUSHDATA2 then 2
  else if op == OP_PUSHDATA4 then 4
  else 0.

(** The payload length a push at offset [i] declares: the opcode byte
    itself below 0x4c, else the little-endian value of the length bytes. *)
Definition declared_size (self : bytes) (i : Z) : Z :=
  let op := getitem self i in
  if int_of_byte op <? 0x4C then int_of_byte op
  else le_value (slice self (i + 1) (i + 1 + hdr_len op)).

(** The shape of the instruction that starts at offset [i]. *)
Inductive shape : Type :=
| NoData
| HeaderTruncated
| PayloadTruncated
| Complete.

Definition classify (self : bytes) (i : Z) : shape :=
  let op := getitem self i in
  if int_of_byte op >? 0x4E then NoData
  else if len self <? i + 1 + hdr_len op then HeaderTruncated
  else if len self <? i + 1 + hdr_len op + declared_size self i
  then PayloadTruncated
  else Complete.

(** Number of bytes of a whole instruction at offset [i]. *)
Definition extent (self : bytes) (i : Z) : Z :=
  if int_of_byte (getitem self i) >? 0x4E then 1
  else 1 + hdr_len (getitem self i) + declared_size self i.

(** Offsets at which the left-to-right walk starts an instruction. *)
Inductive boundary (self : bytes) : Z -> Prop :=
| boundary_start : boundary self 0
| boundary_next i :
    boundary self i -> i < len self ->
    classify self i = NoData \/ classify self i = Complete ->
    boundary self (i + extent self i).

(** Bytes an instruction yielded by [raw_iter] occupies in the script. *)
Definition instr_len (it : instr) : Z :=
  match it with
  | (op, None, _) => 1
  | (op, Some data, _) => 1 + hdr_len op + len data
  end.

(** The verbatim source bytes of an instruction of [script]. *)
Definition source (script : bytes) (it : instr) : bytes :=
  let '(_, _, sop_idx) := it in
  slice script sop_idx (sop_idx + instr_len it).

(** Whether the bytes of [script] at the instruction's offset are [sig]. *)
Definition matches (script sig : bytes) (it : instr) : bool :=
  let '(_, _, sop_idx) := it in
  bytes_eqb (slice script sop_idx (sop_idx + len sig)) sig.

(** [raw_iter] restarted at index [i], with the fuel the rest needs. *)
Definition raw_iter_from (self : bytes) (i : Z) : stream instr :=
  CScript.raw_iter_loop (Z.to_nat (len self - i)) self i.

Fixpoint stream_of_list {A : Type} (l : list A) : stream A :=
  match l with
  | [] => SNil
  | a :: l => SCons a (stream_of_list l)
  end.

(** A yielded push has its whole declared payload. *)
Definition full_payload (self : bytes) (it : instr) : Prop :=
  match it with
  | (_, Some data, sop_idx) => len data = declared_size self sop_idx
  | (_, None, _) => True
  end.

(** The script [push 0x01; PUSHDATA1 declaring 5 bytes, 1 present]. *)
Definition truncated_example : bytes := [x01; x01; x4c; x05; x01].

(** The script [push 0x01; PUSHDATA2 with one of its two length bytes]. *)
Definition short_header_example : bytes := [x01; x01; x4d; x05].

(** Instructions that [FindAndDelete] keeps. *)
Definition kept (script sig : bytes) (it : instr) : bool :=
  negb (matches script sig it).

(** Cooked iteration restarted at index [i]. *)
Definition iter_from (self : bytes) (i : Z) : stream item :=
  CScript.cooked (raw_iter_from self i).

(* ------------------------------------------------------------------ *)
(** ** Building a script and reading it back *)

(** The values of a build-and-iterate round trip: opcodes, native integers
    and raw byte strings. *)
Inductive value : Type :=
| VOp (op : byte)
| VInt (n : Z)
| VBytes (b : bytes).

(** The Python object [__coerce_instance] receives for a [value]. *)
Definition inject (v : value) : coercable :=
  match v with
  | VOp op => CoOp op
  | VInt n => CoInt n
  | VBytes b => CoBytes b
  end.

Section Logical.
Variable bn2vch : Z -> bytes.

  (** Values that can be built and read back: every opcode but the push
      opcodes 0x01..0x4e, and every integer or byte string whose push fits
      the four-byte length field. *)
Definition readable (v : value) : bool :=
    match v with
    | VOp op => (int_of_byte op =? 0) || (int_of_byte op >? 0x4E)
    | VInt n =>
        ((0 <=? n) && (n <=? 16)) || (n =? -1)
        || (len (bn2vch n) <=? 0xFFFFFFFF)
    | VBytes b => len b <=? 0xFFFFFFFF
    end.

  (** The item cooked iteration gives back for a built value. *)
Definition logical (v : value) : item :=
    match v with
    | VOp op =>
        if int_of_byte op =? 0 then IBytes []
        else if CScriptOp.is_small_int op then IInt (int_of_byte op - 80)
        else IOp op
    | VInt n =>
        if n =? 0 then IBytes []
        else if (1 <=? n) && (n <=? 16) then IInt n
        else if n =? -1 then IOp OP_1NEGATE
        else IBytes (bn2vch n)
    | VBytes b => IBytes b
    end.
End Logical.

(* ------------------------------------------------------------------ *)
(** ** Reference models for the further properties *)

(** The operations of [ConditionStack]. *)
Inductive cs_op : Type :=
| CsPush (b : bool)
| CsPop
| CsToggle.

(** The condition stack as the plain list of the pushed booleans (top
    first), which [ConditionStack] represents by a size and one marker. *)
Definition vec_step (v : list bool) (o : cs_op) : option (list bool) :=
  match o, v with
  | CsPush b, _ => Some (b :: v)
  | CsPop, _ :: v' => Some v'
  | CsToggle, b :: v' => Some (negb b :: v')
  | CsPop, [] => None
  | CsToggle, [] => None
  end.

Fixpoint vec_run (v : list bool) (ops : list cs_op) : option (list bool) :=
  match ops with
  | [] => Some v
  | o :: ops =>
      match vec_step v o with
      | Some v' => vec_run v' ops
      | None => None
      end
  end.

Definition cs_step (NO_FALSE : Z) (cs : ConditionStack.t) (o : cs_op)
  : exc ConditionStack.t :=
  match o with
  | CsPush b => Return (ConditionStack.push_back NO_FALSE cs b)
  | CsPop => ConditionStack.pop_back NO_FALSE cs
  | CsToggle => ConditionStack.toggle_top NO_FALSE cs
  end.

Fixpoint cs_run (NO_FALSE : Z) (cs : ConditionStack.t) (ops : list cs_op)
  : exc ConditionStack.t :=
  match ops with
  | [] => Return cs
  | o :: ops => cs' <- cs_step NO_FALSE cs o ;; cs_run NO_FALSE cs' ops
  end.

(** Depth of the deepest false entry of a top-first list, counted from the
    bottom: the position [ConditionStack] keeps as its marker. *)
Fixpoint first_false (v : list bool) : option Z :=
  match v with
  | [] => None
  | b :: v' =>
      match first_false v' with
      | Some k => Some k
      | None => if b then None else Some (len v')
      end
  end.

(** A tracker that represents the list [v]. *)
Definition represents (NO_FALSE : Z) (v : list bool) (cs : ConditionStack.t)
  : Prop :=
  ConditionStack.stack_size cs = len v
  /\ ConditionStack.first_false_position cs
     = match first_false v with Some k => k | None => NO_FALSE end.

(** The opcodes that have an arm in [handle]. *)
Definition supported (op : byte) : bool :=
  existsb (Byte.eqb op)
    [OP_IF; OP_NOTIF; OP_ELSE; OP_ENDIF; OP_SHA256; OP_1SUB; OP_WITHIN;
     OP_0; OP_1; OP_DROP; OP_IFDUP; OP_DUP; OP_CHECKSIGVERIFY;
     OP_CHECKTEMPLATEVERIFY; OP_CHECKLOCKTIMEVERIFY;
     OP_CHECKSEQUENCEVERIFY; OP_EQUALVERIFY; OP_VERIFY].

(** How a result of [handle] relates to the tracker it was given. *)
Definition tracker_step (hb : ConditionStack.t) (r : exc handled) : Prop :=
  match r with
  | Return (_, _, hb') =>
      hb' = hb
      \/ (exists b, hb' = ConditionStack.push_back max_uint32 hb b)
      \/ ConditionStack.pop_back max_uint32 hb = Return hb'
      \/ ConditionStack.toggle_top max_uint32 hb = Return hb'
  | Raise ValueError => True
  | Raise ConditionStackError => ConditionStack.stack_size hb < 0
  | Raise _ => False
  end.

(** One generator run after another: the second starts when the first is
    exhausted, and never starts if the first raises. *)
Fixpoint sapp {A : Type} (s t : stream A) : stream A :=
  match s with
  | SNil => t
  | SCons a rest => SCons a (sapp rest t)
  | SRaise e => SRaise e
  end.

(** A raw-iteration tuple with its offset moved by [k]. *)
Definition shift (k : Z) (it : instr) : instr :=
  let '(op, data, sop_idx) := it in (op, data, k + sop_idx).

(** [CScript.__add__]: the right operand is coerced, then appended. *)
Definition CScript_add (bn2vch : Z -> bytes) (self : bytes)
    (other : coercable) : exc bytes :=
  other <- CScript.coerce_instance bn2vch other ;;
  Return (self ++ other).

(** The items cooked iteration can yield. *)
Definition item_ok (it : item) : Prop :=
  match it with
  | IBytes _ => True
  | IInt n => 1 <= n <= 16
  | IOp op => 0x4E < int_of_byte op /\ CScriptOp.is_small_int op = false
  end.

(** Items that only push. *)
Definition is_push (it : item) : bool :=
  match it with
  | IBytes _ | IInt _ => true
  | IOp _ => false
  end.

(** What one instruction adds to the signature-operation count in
    non-accurate mode. *)
Definition sigop_cost (it : instr) : Z :=
  let '(opcode, _, _) := it in
  if (opcode == OP_CHECKSIG) || (opcode == OP_CHECKSIGVERIFY) then 1
  else if (opcode == OP_CHECKMULTISIG) || (opcode == OP_CHECKMULTISIGVERIFY)
  then 20
  else 0.

Fixpoint zsum (l : list Z) : Z :=
  match l with
  | [] => 0
  | x :: l => x + zsum l
  end.

(** Facts about one yielded tuple, at the index the walk was at. *)
Definition tuple_ok (self : bytes) (i : Z) (it : instr) : Prop :=
  let '(op, data, sop_idx) := it in
  sop_idx = i /\ 0 <= i < len self /\ op = getitem self i
  /\ match data with
     | Some d => int_of_byte op <= 78 /\ len d = declared_size self i
     | None => 78 < int_of_byte op
     end.

(** The tuples of the walk from [i]: offsets increase strictly from [i]
    on, and every tuple is the instruction at its offset. *)
Inductive walk_ok (self : bytes) : Z -> list instr -> Prop :=
| walk_nil i : walk_ok self i []
| walk_cons i i' it l :
    tuple_ok self i it -> i < i' <= len self -> walk_ok self i' l ->
    walk_ok self i (it :: l).

(** Proof steps for goals about [tracker_step]. *)
Ltac tracker_done :=
  cbn [tracker_step];
  first [ exact I
        | left; reflexivity
        | right; left; eexists; reflexivity ].

Ltac tracker_head :=
  match goal with
  | |- tracker_step _ (if ?c then _ else _) => destruct c eqn:?
  | |- tracker_step _ (match ?l with [] => _ | _ :: _ => _ end) =>
      destruct l
  end.

(** [interpret] with its [try]/[except ConditionStackError] removed: every
    exception of [handle] propagates. *)
Fixpoint interpret_loop_uncaught (ops : stream item) (stack : exec_stack)
    (handle_branch : ConditionStack.t) : exc bool :=
  match ops with
  | SNil => Return true
  | SRaise e => Raise e
  | SCons op rest =>
      match handle op stack handle_branch with
      | Raise e => Raise e
      | Return (ok, stack, handle_branch) =>
          if negb ok then Return false
          else interpret_loop_uncaught rest stack handle_branch
      end
  end.

Definition interpret_uncaught (s : bytes) : exc bool :=
  interpret_loop_uncaught (CScript.iter s) []
    (ConditionStack.init max_uint32).

(** A cooked item is the raw tuple it was made from: the data of a push,
    or the opcode itself or its small integer. *)
Definition cooked_of (it : instr) (c : item) : Prop :=
  match it with
  | (_, Some data, _) => c = IBytes data
  | (op, None, _) => c = IOp op \/ exists n : Z, c = IInt n
  end.

(* ================================================================== *)
(** * Properties *)

Section TrackerInvariant.
Import ConditionStack.
Variable NO_FALSE : Z.

Lemma push_back_marker_ok s b :
    marker_ok NO_FALSE s -> marker_ok NO_FALSE (push_back NO_FALSE s b).
  Proof.
    unfold marker_ok, push_back; cbn.
    destruct (Z.eqb_spec (first_false_position s) NO_FALSE) as [E|E];
      destruct b; cbn; lia.
  Qed.

Lemma pop_back_marker_ok s s' :
    marker_ok NO_FALSE s -> pop_back NO_FALSE s = Return s' ->
    marker_ok NO_FALSE s'.
  Proof.
    unfold marker_ok, pop_back.
    destruct (stack_size s >? 0); cbn; [|discriminate].
    intros H [= <-]; cbn.
    destruct (Z.eqb_spec (first_false_position s) (stack_size s - 1)); lia.
  Qed.

Lemma toggle_top_marker_ok s s' :
    marker_ok NO_FALSE s -> toggle_top NO_FALSE s = Return s' ->
    marker_ok NO_FALSE s'.
  Proof.
    unfold marker_ok, toggle_top.
    destruct (stack_size s >? 0); cbn; [|discriminate].
    destruct (Z.eqb_spec (first_false_position s) NO_FALSE).
    - intros _ [= <-]; cbn; lia.
    - destruct (Z.eqb_spec (first_false_position s) (stack_size s - 1)).
      + intros _ [= <-]; cbn; lia.
      + intros H [= <-]; exact H.
  Qed.
End TrackerInvariant.

(** C9: every state reachable from the initial tracker (depth 0, marker =
    sentinel) through non-failing [push_back], [pop_back] and [toggle_top]
    has its first-false marker equal to the sentinel or strictly below the
    depth.  This holds whatever value the sentinel has. *)
Theorem condition_stack_invariant :
  forall (NO_FALSE : Z) (s : ConditionStack.t),
    ConditionStack.reachable NO_FALSE s ->
    ConditionStack.first_false_position s = NO_FALSE
    \/ ConditionStack.first_false_position s < ConditionStack.stack_size s.
Proof.
  intros NO_FALSE s H.
  change (ConditionStack.marker_ok NO_FALSE s).
  induction H.
  - left; reflexivity.
  - now apply push_back_marker_ok.
  - eapply pop_back_marker_ok; eassumption.
  - eapply toggle_top_marker_ok; eassumption.
Qed.

Lemma condition_stack_invariant_witness :
  let s := ConditionStack.push_back max_uint32
             (ConditionStack.push_back max_uint32
                (ConditionStack.init max_uint32) false) true in
  ConditionStack.first_false_position s = max_uint32
  \/ ConditionStack.first_false_position s < ConditionStack.stack_size s.
Proof.
  apply (condition_stack_invariant max_uint32).
  repeat constructor.
Defined.

(* ------------------------------------------------------------------ *)
(** ** Bytes and bit arithmetic *)

Lemma int_of_byte_range b : 0 <= int_of_byte b < 256.
Proof.
  unfold int_of_byte. pose proof (Byte.to_N_bounded b). lia.
Qed.

Lemma int_of_byte_of_int z : 0 <= z < 256 -> int_of_byte (byte_of_int z) = z.
Proof.
  intros Hz. unfold int_of_byte, byte_of_int.
  destruct (Byte.of_N (Z.to_N z)) as [b|] eqn:E.
  - apply Byte.to_of_N in E. rewrite E. lia.
  - apply Byte.of_N_None_iff in E. lia.
Qed.

Lemma byte_of_int_of_byte b : byte_of_int (int_of_byte b) = b.
Proof.
  unfold int_of_byte, byte_of_int.
  rewrite N2Z.id, Byte.of_to_N. reflexivity.
Qed.

Lemma int_of_byte_inj a b : int_of_byte a = int_of_byte b -> a = b.
Proof.
  intros H. rewrite <- (byte_of_int_of_byte a), <- (byte_of_int_of_byte b).
  now rewrite H.
Qed.

Lemma byte_bit7 b :
  (Z.land (int_of_byte b) 128 =? 0) = (int_of_byte b <? 128).
Proof. destruct b; reflexivity. Qed.

Lemma byte_set_bit7 b :
  int_of_byte b < 128 ->
  int_of_byte (byte_of_int (Z.lor (int_of_byte b) 128)) = int_of_byte b + 128.
Proof.
  destruct b; intros H; try reflexivity; vm_compute in H; discriminate.
Qed.

Lemma lor_shiftl_add a b k :
  0 <= k -> 0 <= a < 2 ^ k -> 0 <= b ->
  Z.lor a (Z.shiftl b k) = a + b * 2 ^ k.
Proof.
  intros Hk Ha Hb.
  rewrite <- Z.shiftl_mul_pow2 by lia.
  assert (E : Z.land a (Z.shiftl b k) = 0).
  { apply Z.bits_inj'. intros n Hn.
    rewrite Z.land_spec, Z.bits_0.
    destruct (Z.lt_ge_cases n k).
    - rewrite Z.shiftl_spec_low by lia. apply andb_false_r.
    - destruct (Z.eq_dec a 0) as [->|Hne].
      + now rewrite Z.bits_0.
      + rewrite (Z.bits_above_log2 a n); [reflexivity|lia|].
        apply Z.lt_le_trans with k; [|lia].
        apply Z.log2_lt_pow2; lia. }
  rewrite <- Z.lxor_lor by exact E.
  symmetry. apply Z.add_nocarry_lxor. exact E.
Qed.

Lemma pow256 k : 0 <= k -> 2 ^ (8 * k) = 256 ^ k.
Proof. intros. rewrite Z.pow_mul_r by lia. reflexivity. Qed.

(* ------------------------------------------------------------------ *)
(** ** Numeric stack encoding *)

Lemma le_value_bound bs : 0 <= le_value bs < 256 ^ len bs.
Proof.
  unfold len. induction bs as [|b bs IH]; cbn [le_value length].
  - cbn. lia.
  - pose proof (int_of_byte_range b).
    rewrite Nat2Z.inj_succ, Z.pow_succ_r by lia. lia.
Qed.

Lemma le_value_app bs b :
  le_value (bs ++ [b]) = le_value bs + int_of_byte b * 256 ^ len bs.
Proof.
  unfold len. induction bs as [|c bs IH]; cbn [le_value length app].
  - cbn. lia.
  - rewrite IH, Nat2Z.inj_succ, Z.pow_succ_r by lia. lia.
Qed.

Lemma len_app {A} (xs ys : list A) : len (xs ++ ys) = len xs + len ys.
Proof. unfold len. rewrite length_app. lia. Qed.

Lemma len_nonneg {A} (xs : list A) : 0 <= len xs.
Proof. unfold len. lia. Qed.

Lemma encode_loop_bytes fuel : forall a r,
  CScriptNum.encode_loop fuel a r = r ++ le_bytes fuel a.
Proof.
  induction fuel as [|fuel IH]; intros a r; cbn.
  - now rewrite app_nil_r.
  - destruct (a =? 0).
    + now rewrite app_nil_r.
    + rewrite IH, <- app_assoc. reflexivity.
Qed.

Lemma byte_split a : 0 <= a -> a = Z.land a 255 + 256 * Z.shiftr a 8.
Proof.
  intros Ha. change 255 with (Z.ones 8).
  rewrite Z.land_ones, Z.shiftr_div_pow2 by lia.
  change (2 ^ 8) with 256. pose proof (Z.div_mod a 256). lia.
Qed.

Lemma land_255_range a : 0 <= a -> 0 <= Z.land a 255 < 256.
Proof.
  intros Ha. change 255 with (Z.ones 8). rewrite Z.land_ones by lia.
  apply Z.mod_pos_bound. reflexivity.
Qed.

Lemma shiftr8_bound a k :
  0 <= a < 2 ^ Z.of_nat (S k) -> 0 < a -> 0 <= Z.shiftr a 8 < 2 ^ Z.of_nat k.
Proof.
  intros Ha Hpos. rewrite Z.shiftr_div_pow2 by lia. change (2 ^ 8) with 256.
  split; [apply Z.div_pos; lia|].
  apply Z.div_lt_upper_bound; [lia|].
  rewrite Nat2Z.inj_succ, Z.pow_succ_r in Ha by lia.
  assert (0 < 2 ^ Z.of_nat k) by (apply Z.pow_pos_nonneg; lia). lia.
Qed.

(** With fuel [f] the loop emits all the bytes of any [a < 2^f]. *)
Lemma le_bytes_value fuel : forall a,
  0 <= a < 2 ^ Z.of_nat fuel -> le_value (le_bytes fuel a) = a.
Proof.
  induction fuel as [|fuel IH]; intros a Ha.
  - cbn in *. lia.
  - cbn [le_bytes]. destruct (Z.eqb_spec a 0) as [->|Hne]; [reflexivity|].
    cbn [le_value].
    rewrite int_of_byte_of_int by (apply land_255_range; lia).
    rewrite IH by (apply shiftr8_bound; lia).
    symmetry. apply byte_split. lia.
Qed.

Lemma le_bytes_length fuel : forall a k,
  0 <= a < 256 ^ Z.of_nat k -> (length (le_bytes fuel a) <= k)%nat.
Proof.
  induction fuel as [|fuel IH]; intros a k Ha; cbn [le_bytes].
  - cbn. lia.
  - destruct (Z.eqb_spec a 0) as [->|Hne]; [cbn; lia|].
    destruct k as [|k]; [cbn in Ha; lia|].
    cbn [length]. apply le_n_S, IH.
    rewrite Z.shiftr_div_pow2 by lia. change (2 ^ 8) with 256.
    split; [apply Z.div_pos; lia|].
    apply Z.div_lt_upper_bound; [lia|].
    rewrite Nat2Z.inj_succ, Z.pow_succ_r in Ha by lia. lia.
Qed.

Lemma le_bytes_nonempty fuel a : 0 < a -> le_bytes (S fuel) a <> [].
Proof.
  intros Ha. cbn [le_bytes].
  destruct (Z.eqb_spec a 0); [lia|discriminate].
Qed.

Lemma decode_loop_value value : forall i result,
  0 <= i -> 0 <= result < 256 ^ i ->
  CScriptNum.decode_loop i value result = result + 256 ^ i * le_value value.
Proof.
  induction value as [|b value IH]; intros i result Hi Hr;
    cbn [CScriptNum.decode_loop le_value].
  - lia.
  - pose proof (int_of_byte_range b) as Hb.
    rewrite lor_shiftl_add by (rewrite ?pow256; lia).
    rewrite pow256 by lia.
    assert (0 < 256 ^ i) by (apply Z.pow_pos_nonneg; lia).
    rewrite IH; [|lia|].
    + rewrite Z.pow_add_r by lia. change (256 ^ 1) with 256. lia.
    + rewrite Z.pow_add_r by lia. change (256 ^ 1) with 256.
      generalize dependent (256 ^ i). intros P; intros.
      assert (int_of_byte b * P <= 255 * P)
        by (apply Z.mul_le_mono_nonneg_r; lia).
      assert (0 <= int_of_byte b * P) by (apply Z.mul_nonneg_nonneg; lia).
      lia.
Qed.

Lemma decode_loop_0 value : CScriptNum.decode_loop 0 value 0 = le_value value.
Proof.
  rewrite decode_loop_value by (rewrite ?Z.pow_0_r; lia).
  rewrite Z.pow_0_r. lia.
Qed.

(** The sign mask of [decode]: all bits of [value] but the highest. *)
Lemma num_mask_ones k :
  1 <= k -> Z.shiftr (2 ^ (k * 8) - 1) 1 = Z.ones (k * 8 - 1).
Proof.
  intros Hk. rewrite Z.shiftr_div_pow2 by lia. change (2 ^ 1) with 2.
  rewrite Z.ones_equiv.
  replace (k * 8) with (Z.succ (k * 8 - 1)) at 1 by lia.
  rewrite Z.pow_succ_r by lia.
  assert (0 < 2 ^ (k * 8 - 1)) by (apply Z.pow_pos_nonneg; lia).
  symmetry. apply Z.div_unique with 1; lia.
Qed.

Lemma sign_bit_pow k : 1 <= k -> 2 ^ (k * 8 - 1) = 128 * 256 ^ (k - 1).
Proof.
  intros Hk. replace (k * 8 - 1) with (7 + 8 * (k - 1)) by lia.
  rewrite Z.pow_add_r, pow256 by lia. reflexivity.
Qed.

(** What [decode] returns on the payload [value] behind a length byte. *)
Lemma decode_cons l value :
  value <> [] ->
  CScriptNum.decode (l :: value) =
    if int_of_byte (last value x00) >=? 128
    then - (le_value value mod (128 * 256 ^ (len value - 1)))
    else le_value value.
Proof.
  intros Hne. unfold CScriptNum.decode, slice_from.
  change (skipn (Z.to_nat 1) (l :: value)) with value.
  assert (1 <= len value) by (unfold len; destruct value; cbn in *;
                               [congruence|lia]).
  destruct (Z.eqb_spec (len value) 0); [lia|].
  rewrite decode_loop_0.
  destruct (int_of_byte (last value x00) >=? 128); [|reflexivity].
  rewrite num_mask_ones, Z.land_ones, sign_bit_pow by lia. lia.
Qed.

Lemma encode_unfold n :
  n <> 0 ->
  CScriptNum.encode n =
    let r := sign_payload (n <? 0)
               (le_bytes (S (Z.to_nat (Z.log2 (Z.abs n)))) (Z.abs n)) in
    if len r <=? 255 then Return (byte_of_int (len r) :: r)
    else Raise ValueError.
Proof.
  intros Hn. unfold CScriptNum.encode, sign_payload.
  destruct (Z.eqb_spec n 0); [contradiction|].
  replace (if n <? 0 then - n else n) with (Z.abs n)
    by (destruct (Z.ltb_spec n 0); lia).
  rewrite encode_loop_bytes. reflexivity.
Qed.

Lemma mod_add_once a m : 0 <= a < m -> (a + m) mod m = a.
Proof.
  intros H. symmetry. apply Z.mod_unique_pos with 1; lia.
Qed.

Lemma sign_payload_decode n bs l :
  n <> 0 -> bs <> [] -> le_value bs = Z.abs n ->
  CScriptNum.decode (l :: sign_payload (n <? 0) bs) = n.
Proof.
  intros Hn Hne Hv.
  destruct (exists_last Hne) as (xs & t & ->).
  unfold sign_payload.
  rewrite last_last, removelast_last, byte_bit7.
  rewrite le_value_app in Hv.
  pose proof (le_value_bound xs) as Hxs.
  pose proof (int_of_byte_range t) as Ht.
  pose proof (len_nonneg xs) as Hl.
  set (P := 256 ^ len xs) in *.
  assert (HP : 0 < P) by (apply Z.pow_pos_nonneg; lia).
  destruct (Z.ltb_spec (int_of_byte t) 128) as [Hlt|Hge]; cbn [negb];
    destruct (Z.ltb_spec n 0) as [Hneg|Hpos].
  - (* sign bit folded into the last magnitude byte *)
    rewrite decode_cons by (destruct xs; discriminate).
    rewrite last_last, byte_set_bit7 by lia.
    destruct (Z.geb_spec (int_of_byte t + 128) 128); [|lia].
    rewrite le_value_app, byte_set_bit7, len_app by lia.
    change (len [_]) with 1. replace (len xs + 1 - 1) with (len xs) by lia.
    fold P.
    replace (le_value xs + (int_of_byte t + 128) * P)
      with (Z.abs n + 128 * P) by lia.
    rewrite mod_add_once by nia. lia.
  - rewrite decode_cons by (destruct xs; discriminate).
    rewrite last_last.
    destruct (Z.geb_spec (int_of_byte t) 128); [lia|].
    rewrite le_value_app. fold P. lia.
  - (* extra sign byte 0x80 *)
    rewrite decode_cons by (destruct xs; discriminate).
    rewrite last_last, int_of_byte_of_int by lia.
    destruct (Z.geb_spec 128 128); [|lia].
    rewrite !le_value_app, int_of_byte_of_int, !len_app by lia.
    change (len [_]) with 1.
    replace (len xs + 1 + 1 - 1) with (len xs + 1) by lia.
    rewrite Z.pow_add_r by lia. change (256 ^ 1) with 256. fold P.
    replace (le_value xs + int_of_byte t * P + 128 * (P * 256))
      with (Z.abs n + 128 * (P * 256)) by lia.
    rewrite mod_add_once by nia. lia.
  - (* extra zero byte *)
    rewrite decode_cons by (destruct xs; discriminate).
    rewrite last_last, int_of_byte_of_int by lia.
    destruct (Z.geb_spec 0 128); [lia|].
    rewrite !le_value_app, int_of_byte_of_int by lia. fold P. lia.
Qed.

Lemma log2_fuel a : 0 < a -> 0 <= a < 2 ^ Z.of_nat (S (Z.to_nat (Z.log2 a))).
Proof.
  intros Ha. pose proof (Z.log2_nonneg a).
  rewrite Nat2Z.inj_succ, Z2Nat.id by lia.
  pose proof (Z.log2_spec a Ha). lia.
Qed.

Lemma sign_payload_length n bs :
  bs <> [] -> le_value bs = Z.abs n -> (length bs <= 255)%nat ->
  Z.abs n < 2 ^ 2039 ->
  len (sign_payload (n <? 0) bs) <= 255.
Proof.
  intros Hne Hv Hlen Hn.
  destruct (exists_last Hne) as (xs & t & ->).
  unfold sign_payload. rewrite last_last, removelast_last, byte_bit7.
  rewrite le_value_app in Hv. rewrite length_app in Hlen. cbn in Hlen.
  pose proof (le_value_bound xs) as Hxs.
  destruct (Z.ltb_spec (int_of_byte t) 128) as [Hlt|Hge]; cbn [negb].
  - destruct (n <? 0); rewrite !len_app; unfold len; cbn [length]; lia.
  - rewrite !len_app. unfold len in *. cbn [length].
    assert (length xs <> 254)%nat; [|lia].
    intros E. rewrite E in *.
    change (2 ^ 2039) with (128 * 256 ^ Z.of_nat 254) in Hn.
    assert (0 < 256 ^ Z.of_nat 254) by (apply Z.pow_pos_nonneg; lia).
    nia.
Qed.

(** Above the bound the payload does not fit the one-byte length. *)
Lemma sign_payload_too_long n bs :
  bs <> [] -> le_value bs = Z.abs n -> 2 ^ 2039 <= Z.abs n ->
  255 < len (sign_payload (n <? 0) bs).
Proof.
  intros Hne Hv Hn.
  destruct (exists_last Hne) as (xs & t & ->).
  unfold sign_payload. rewrite last_last, removelast_last, byte_bit7.
  rewrite le_value_app in Hv.
  pose proof (le_value_bound xs) as Hxs.
  pose proof (int_of_byte_range t) as Ht.
  pose proof (len_nonneg xs) as Hl.
  change (2 ^ 2039) with (128 * 256 ^ 254) in Hn.
  assert (HP : 0 < 256 ^ len xs) by (apply Z.pow_pos_nonneg; lia).
  assert (HQ : 0 < 256 ^ 254) by (apply Z.pow_pos_nonneg; lia).
  destruct (Z.ltb_spec (int_of_byte t) 128) as [Hlt|Hge]; cbn [negb].
  - assert (256 ^ 254 < 256 ^ len xs) by nia.
    assert (254 < len xs) by (apply (Z.pow_lt_mono_r_iff 256); lia).
    destruct (n <? 0); rewrite len_app;
      [change (len [byte_of_int (Z.lor (int_of_byte t) 128)]) with 1
      |change (len [t]) with 1]; lia.
  - rewrite !len_app. change (len [t]) with 1.
    change (len [byte_of_int (if n <? 0 then 128 else 0)]) with 1.
    assert (256 ^ 254 < 256 ^ (len xs + 1)).
    { rewrite Z.pow_add_r by lia. change (256 ^ 1) with 256. nia. }
    assert (254 < len xs + 1) by (apply (Z.pow_lt_mono_r_iff 256); lia).
    lia.
Qed.

(** C4 (amended): for every integer [n] with [|n| < 2^2039], [encode]
    returns a byte string that [decode] maps back to [n]; for every other
    integer [encode] raises [ValueError] (the payload no longer fits the
    one-byte length prefix); and [encode 0] is the empty byte string. *)
Theorem scriptnum_decode_encode :
  forall n : Z,
    (if Z.abs n <? 2 ^ 2039
     then exists vch : bytes,
         CScriptNum.encode n = Return vch /\ CScriptNum.decode vch = n
     else CScriptNum.encode n = Raise ValueError)
    /\ CScriptNum.encode 0 = Return [].
Proof.
  intros n. split; [|reflexivity].
  destruct (Z.ltb_spec (Z.abs n) (2 ^ 2039)) as [Hn|Hn].
  - destruct (Z.eq_dec n 0) as [->|Hne].
    + exists []. repeat split.
    + rewrite encode_unfold by assumption. cbv zeta.
      set (a := Z.abs n) in *.
      assert (Ha : 0 < a) by (unfold a; lia).
      set (bs := le_bytes (S (Z.to_nat (Z.log2 a))) a).
      assert (Hbs : bs <> []) by (apply le_bytes_nonempty; lia).
      assert (Hv : le_value bs = a) by (apply le_bytes_value, log2_fuel; lia).
      assert (Hl : (length bs <= 255)%nat).
      { apply le_bytes_length. split; [lia|].
        apply Z.lt_trans with (2 ^ 2039); [exact Hn|reflexivity]. }
      pose proof (sign_payload_length n bs Hbs Hv Hl Hn) as Hlen.
      destruct (Z.leb_spec (len (sign_payload (n <? 0) bs)) 255); [|lia].
      eexists. split; [reflexivity|].
      now apply sign_payload_decode.
  - assert (Hne : n <> 0).
    { intros ->. change (Z.abs 0) with 0 in Hn.
      assert (0 < 2 ^ 2039) by (apply Z.pow_pos_nonneg; lia). lia. }
    rewrite encode_unfold by assumption. cbv zeta.
    set (a := Z.abs n) in *.
    assert (Ha : 0 < a) by (unfold a; lia).
    set (bs := le_bytes (S (Z.to_nat (Z.log2 a))) a).
    assert (Hbs : bs <> []) by (apply le_bytes_nonempty; lia).
    assert (Hv : le_value bs = a) by (apply le_bytes_value, log2_fuel; lia).
    pose proof (sign_payload_too_long n bs Hbs Hv Hn) as Hlen.
    destruct (Z.leb_spec (len (sign_payload (n <? 0) bs)) 255);
      [lia|reflexivity].
Qed.

Lemma scriptnum_decode_encode_witness :
  (exists vch : bytes,
      CScriptNum.encode (-255) = Return vch
      /\ CScriptNum.decode vch = -255)
  /\ CScriptNum.encode (- 2 ^ 2039) = Raise ValueError
  /\ CScriptNum.encode 0 = Return [].
Proof.
  split; [exact (proj1 (scriptnum_decode_encode (-255)))|].
  split; [exact (proj1 (scriptnum_decode_encode (- 2 ^ 2039)))|].
  exact (proj2 (scriptnum_decode_encode 0)).
Defined.

(** C4, as stated, fails at [n = 2^2039]: the encoding needs 256 payload
    bytes, [bytes([len(r)])] raises [ValueError], and there is no encoding
    to decode. *)
Lemma scriptnum_encode_large_raises :
  CScriptNum.encode (2 ^ 2039) = Raise ValueError
  /\ ~ (exists vch : bytes,
          CScriptNum.encode (2 ^ 2039) = Return vch
          /\ CScriptNum.decode vch = 2 ^ 2039).
Proof.
  assert (E : CScriptNum.encode (2 ^ 2039) = Raise ValueError)
    by (vm_compute; reflexivity).
  split; [exact E|].
  intros (vch & H & _). rewrite E in H. discriminate.
Qed.

(* ------------------------------------------------------------------ *)
(** ** The instruction handler *)

Lemma encode_constants :
  CScriptNum.encode 0 = Return ZERO_enc /\ CScriptNum.encode 1 = Return ONE_enc.
Proof. split; reflexivity. Qed.

Lemma active_all_true size :
  ConditionStack.all_true max_uint32 (active size) = true.
Proof. reflexivity. Qed.

(** Raw bytes and decoded small integers are pushed when execution is
    active, and left alone when it is not. *)
Lemma handle_bytes (d : bytes) stack hb :
  handle (IBytes d) stack hb =
    Return (true,
            if ConditionStack.all_true max_uint32 hb then d :: stack
            else stack,
            hb).
Proof. reflexivity. Qed.

Lemma handle_int (n : Z) stack hb :
  handle (IInt n) stack hb =
    if ConditionStack.all_true max_uint32 hb
    then e <- CScriptNum.encode n ;; Return (true, e :: stack, hb)
    else Return (true, stack, hb).
Proof.
  unfold handle. destruct (ConditionStack.all_true max_uint32 hb); cbn.
  - destruct (CScriptNum.encode n); reflexivity.
  - reflexivity.
Qed.

(** An opcode is an [int] too: when execution is active, [handle] first
    pushes the numeric encoding of the opcode's own byte value and only
    then runs the opcode's arm on the stack so extended. *)
Lemma handle_opcode_active (op : byte) stack size :
  handle (IOp op) stack (active size) =
    e <- CScriptNum.encode (int_of_byte op) ;;
    handle_opcode op true (e :: stack) (active size).
Proof.
  unfold handle. rewrite active_all_true. cbn.
  destruct (CScriptNum.encode (int_of_byte op)); reflexivity.
Qed.

(** C1: the handler on [DUP] then [EQUALVERIFY], from a one-item stack
    [x] with execution active.  [DUP] leaves three items, not two: the
    encoding of its own opcode number 0x76 and a copy of that, above [x].
    [EQUALVERIFY] then pushes the encoding of 0x88, compares it with the
    encoding of 0x76 and returns [False]; and [interpret] returns [False]
    on the script [push 0x01, DUP, EQUALVERIFY]. *)
Theorem dup_equalverify_rejected :
  (forall (x : bytes) (size : Z),
      handle (IOp OP_DUP) [x] (active size)
      = Return (true, [[x01; x76]; [x01; x76]; x], active size)
      /\ handle (IOp OP_EQUALVERIFY) [[x01; x76]; [x01; x76]; x] (active size)
         = Return (false, [[x01; x76]; x], active size))
  /\ interpret [x01; x01; OP_DUP; OP_EQUALVERIFY] = Return false.
Proof.
  split; [intros x size; split|]; reflexivity.
Qed.

(** C5: with execution active, [handle] on [IF] or [NOTIF] pushes the
    encoding of the opcode's own number (two bytes), pops it again as the
    condition, rejects it as longer than one byte and returns [False]: the
    item supplied by the preceding instructions is not popped and
    [push_back] is not called, whatever the stack holds.  So [interpret]
    returns [False] on [push 0x02, IF, ENDIF], and on [push 0x01, IF, ENDIF]
    as well. *)
Theorem if_notif_active_always_fails :
  forall (stack : exec_stack) (size : Z),
    handle (IOp OP_IF) stack (active size) = Return (false, stack, active size)
    /\ handle (IOp OP_NOTIF) stack (active size)
       = Return (false, stack, active size)
    /\ interpret [x01; x02; OP_IF; OP_ENDIF] = Return false
    /\ interpret [x01; x01; OP_IF; OP_ENDIF] = Return false.
Proof.
  intros stack size. repeat split; reflexivity.
Qed.

(** With execution inactive the tracker is pushed. *)
Lemma if_notif_inactive_pushes stack hb :
  ConditionStack.all_true max_uint32 hb = false ->
  handle (IOp OP_IF) stack hb
  = Return (true, stack, ConditionStack.push_back max_uint32 hb false)
  /\ handle (IOp OP_NOTIF) stack hb
     = Return (true, stack, ConditionStack.push_back max_uint32 hb false).
Proof.
  intros H. unfold handle. rewrite H. split; reflexivity.
Qed.

(** C3: the decrement on a top item that decodes to [-2^64].  The checked
    subtraction [CScriptNum.__sub__] would abort there, but the arm
    subtracts Python integers: it returns [True] and leaves the encoding of
    [-2^64 - 1], a value below [min_int64].  Through [handle] the arm does
    not even see that item: it decrements the encoding of its own opcode
    number 0x8c that [handle] pushed, and returns [True] as well. *)
Theorem decrement_not_checked :
  CScriptNum.decode below_int64 = - 2 ^ 64
  /\ CScriptNum.decode below_int64 - 1 < min_int64
  /\ CScriptNum.sub (CScriptNum.decode below_int64) 1 = Raise AssertionError
  /\ (forall size,
        sub1_arm [below_int64] (active size)
        = Return (true,
                  [[x09; x01; x00; x00; x00; x00; x00; x00; x00; x81]],
                  active size))
  /\ CScriptNum.decode [x09; x01; x00; x00; x00; x00; x00; x00; x00; x81]
     = - 2 ^ 64 - 1
  /\ (forall size,
        handle (IOp OP_1SUB) [below_int64] (active size)
        = Return (true, [[x02; x8b; x00]; below_int64], active size)).
Proof.
  repeat split; try reflexivity.
Qed.

Lemma bool_of_within_results :
  bool_of_stack_item [x00] = false /\ bool_of_stack_item [] = false.
Proof. split; reflexivity. Qed.

(** C10: on a stack of at least three items the range-test arm pops
    [upper], [lower] and [num] (in that order, from the top), and appends
    the single zero byte when [lower <= num < upper] and the empty byte
    string otherwise; both are false under [bool_of_stack_item], so the
    appended value is never truthy.

    Through [handle] the arm runs on the stack extended by the encoding of
    its own opcode number 0xa5 = 165: on the stack [top; second; third] it
    pops 165 as [upper], [top] as [lower] and [second] as [num], leaves
    [third] in place, and appends the zero byte when
    [decode top <= decode second < 165] and the empty byte string otherwise
    -- again a value that is never truthy. *)
Theorem within_result_never_truthy :
  forall (upper lower num : bytes) (stack : exec_stack) (size : Z),
    let ret := (CScriptNum.decode lower <=? CScriptNum.decode num)
               && (CScriptNum.decode num <? CScriptNum.decode upper) in
    let ret_handle := (CScriptNum.decode upper <=? CScriptNum.decode lower)
                      && (CScriptNum.decode lower <? 165) in
    within_arm (upper :: lower :: num :: stack) (active size)
    = Return (true, (if ret then [x00] else []) :: stack, active size)
    /\ bool_of_stack_item [x00] = false
    /\ bool_of_stack_item [] = false
    /\ bool_of_stack_item (if ret then [x00] else []) = false
    /\ (forall st : exec_stack,
          handle (IOp OP_WITHIN) st (active size)
          = within_arm ([x02; xa5; x00] :: st) (active size))
    /\ CScriptNum.decode [x02; xa5; x00] = 165
    /\ handle (IOp OP_WITHIN) (upper :: lower :: num :: stack) (active size)
       = Return (true,
                 (if ret_handle then [x00] else []) :: num :: stack,
                 active size)
    /\ bool_of_stack_item (if ret_handle then [x00] else []) = false.
Proof.
  intros upper lower num stack size ret ret_handle.
  assert (H : forall st : exec_stack,
             handle (IOp OP_WITHIN) st (active size)
             = within_arm ([x02; xa5; x00] :: st) (active size)).
  { intros st. rewrite handle_opcode_active.
    change (CScriptNum.encode (int_of_byte OP_WITHIN))
      with (Return (A := bytes) [x02; xa5; x00]).
    reflexivity. }
  split; [reflexivity|].
  split; [reflexivity|].
  split; [reflexivity|].
  split; [destruct ret; reflexivity|].
  split; [exact H|].
  split; [reflexivity|].
  split; [rewrite H; reflexivity|].
  destruct ret_handle; reflexivity.
Qed.

(* ------------------------------------------------------------------ *)
(** ** Indexing and slicing *)

Lemma skipn_nth_cons (s : bytes) : forall k,
  (k < length s)%nat -> skipn k s = nth k s x00 :: skipn (S k) s.
Proof.
  induction s as [|b s IH]; intros k Hk; cbn in Hk; [lia|].
  destruct k as [|k]; [reflexivity|].
  cbn [skipn nth]. rewrite IH by lia. reflexivity.
Qed.

Lemma len_slice s i j :
  0 <= i -> len (slice s i j) = Z.max 0 (Z.min (j - i) (len s - i)).
Proof.
  intros Hi. unfold len, slice. rewrite length_firstn, length_skipn. lia.
Qed.

Lemma slice_empty s i j : j <= i -> slice s i j = [].
Proof.
  intros H. unfold slice. replace (Z.to_nat (j - i)) with 0%nat by lia.
  reflexivity.
Qed.

Lemma slice_step s k j :
  0 <= k < len s -> k < j ->
  slice s k j = getitem s k :: slice s (k + 1) j.
Proof.
  unfold len, slice, getitem. intros Hk Hj.
  rewrite (skipn_nth_cons s (Z.to_nat k)) by lia.
  replace (Z.to_nat (j - k)) with (S (Z.to_nat (j - (k + 1)))) by lia.
  replace (Z.to_nat (k + 1)) with (S (Z.to_nat k)) by lia.
  reflexivity.
Qed.

Lemma slice_clip s i j : 0 <= i -> len s <= j -> slice s i j = slice_from s i.
Proof.
  unfold len, slice, slice_from. intros Hi Hj.
  apply firstn_all2. rewrite length_skipn. lia.
Qed.

Lemma firstn_plus (s : bytes) : forall a b,
  firstn (a + b) s = firstn a s ++ firstn b (skipn a s).
Proof.
  induction s as [|x s IH]; intros a b.
  - now rewrite skipn_nil, !firstn_nil.
  - destruct a as [|a]; [reflexivity|].
    cbn [Nat.add firstn skipn app]. now rewrite IH.
Qed.

Lemma slice_split s i j k :
  0 <= i <= j -> j <= k -> slice s i k = slice s i j ++ slice s j k.
Proof.
  unfold slice. intros Hij Hjk.
  replace (Z.to_nat (k - i)) with (Z.to_nat (j - i) + Z.to_nat (k - j))%nat
    by lia.
  rewrite firstn_plus, skipn_skipn.
  replace (Z.to_nat (j - i) + Z.to_nat i)%nat with (Z.to_nat j) by lia.
  reflexivity.
Qed.

Lemma getitem_app_r pre suf i :
  0 <= i -> getitem (pre ++ suf) (len pre + i) = getitem suf i.
Proof.
  unfold getitem, len. intros Hi.
  replace (Z.to_nat (Z.of_nat (length pre) + i))
    with (length pre + Z.to_nat i)%nat by lia.
  apply app_nth2_plus.
Qed.

Lemma skipn_app_r (pre suf : bytes) k :
  skipn (length pre + k) (pre ++ suf) = skipn k suf.
Proof.
  rewrite skipn_app, skipn_all2 by lia.
  replace (length pre + k - length pre)%nat with k by lia. reflexivity.
Qed.

Lemma slice_app_r pre suf i j :
  0 <= i -> slice (pre ++ suf) (len pre + i) (len pre + j) = slice suf i j.
Proof.
  unfold slice, len. intros Hi.
  replace (Z.to_nat (Z.of_nat (length pre) + i))
    with (length pre + Z.to_nat i)%nat by lia.
  rewrite skipn_app_r. f_equal. lia.
Qed.

Lemma slice_from_app_r pre suf i :
  0 <= i -> slice_from (pre ++ suf) (len pre + i) = slice_from suf i.
Proof.
  unfold slice_from, len. intros Hi.
  replace (Z.to_nat (Z.of_nat (length pre) + i))
    with (length pre + Z.to_nat i)%nat by lia.
  apply skipn_app_r.
Qed.

Lemma slice_prefix (d rest : bytes) : slice (d ++ rest) 0 (len d) = d.
Proof.
  unfold slice, len. cbn [Z.to_nat skipn].
  rewrite Z.sub_0_r, Nat2Z.id, firstn_app, firstn_all, Nat.sub_diag.
  cbn. apply app_nil_r.
Qed.

Lemma bytes_eqb_eq a b : bytes_eqb a b = true <-> a = b.
Proof.
  unfold bytes_eqb. destruct (list_eq_dec Byte.byte_eq_dec a b); split;
    congruence.
Qed.

Lemma byte_eqb_eq a b : (a == b) = true <-> a = b.
Proof.
  split; [apply Byte.byte_dec_bl|apply Byte.byte_dec_lb].
Qed.

Lemma byte_eqb_int a b : (a == b) = (int_of_byte a =? int_of_byte b).
Proof.
  destruct (Z.eqb_spec (int_of_byte a) (int_of_byte b)) as [E|E].
  - apply byte_eqb_eq, int_of_byte_inj, E.
  - destruct (a == b) eqn:H; [|reflexivity].
    apply byte_eqb_eq in H. subst. congruence.
Qed.

(* ------------------------------------------------------------------ *)
(** ** One step of raw iteration *)

Lemma push_opcode_cases op :
  76 <= int_of_byte op <= 78 ->
  op = OP_PUSHDATA1 \/ op = OP_PUSHDATA2 \/ op = OP_PUSHDATA4.
Proof.
  intros H.
  assert (C : int_of_byte op = 76 \/ int_of_byte op = 77
              \/ int_of_byte op = 78) by lia.
  destruct C as [C|[C|C]]; [left|right; left|right; right];
    apply int_of_byte_inj; rewrite C; reflexivity.
Qed.

Lemma hdr_len_inline op : int_of_byte op < 76 -> hdr_len op = 0.
Proof.
  intros H. unfold hdr_len. rewrite !byte_eqb_int.
  change (int_of_byte OP_PUSHDATA1) with 76.
  change (int_of_byte OP_PUSHDATA2) with 77.
  change (int_of_byte OP_PUSHDATA4) with 78.
  destruct (Z.eqb_spec (int_of_byte op) 76); [lia|].
  destruct (Z.eqb_spec (int_of_byte op) 77); [lia|].
  destruct (Z.eqb_spec (int_of_byte op) 78); [lia|reflexivity].
Qed.

Lemma declared_size_nonneg self i : 0 <= declared_size self i.
Proof.
  unfold declared_size.
  destruct (int_of_byte (getitem self i) <? 76).
  - apply int_of_byte_range.
  - apply le_value_bound.
Qed.

(** The length bytes of the three reserved push opcodes, read as the code
    reads them. *)
Lemma slice_1 s k : 0 <= k < len s -> slice s k (k + 1) = [getitem s k].
Proof.
  intros H. rewrite slice_step by lia. now rewrite slice_empty by lia.
Qed.

Lemma le_value_1 s k :
  0 <= k < len s ->
  le_value (slice s k (k + 1)) = int_of_byte (getitem s k).
Proof.
  intros H. rewrite slice_1 by lia. cbn [le_value]. lia.
Qed.

Lemma le_value_2 s k :
  0 <= k -> k + 1 < len s ->
  le_value (slice s k (k + 2))
  = int_of_byte (getitem s k) + Z.shiftl (int_of_byte (getitem s (k + 1))) 8.
Proof.
  intros H0 H. rewrite slice_step by lia.
  replace (k + 2) with (k + 1 + 1) by lia.
  rewrite slice_1 by lia. cbn [le_value].
  rewrite Z.shiftl_mul_pow2 by lia. change (2 ^ 8) with 256. lia.
Qed.

Lemma le_value_4 s k :
  0 <= k -> k + 3 < len s ->
  le_value (slice s k (k + 4))
  = int_of_byte (getitem s k)
    + Z.shiftl (int_of_byte (getitem s (k + 1))) 8
    + Z.shiftl (int_of_byte (getitem s (k + 2))) 16
    + Z.shiftl (int_of_byte (getitem s (k + 3))) 24.
Proof.
  intros H0 H.
  rewrite slice_step by lia.
  rewrite (slice_step s (k + 1)) by lia.
  rewrite (slice_step s (k + 1 + 1)) by lia.
  replace (k + 4) with (k + 1 + 1 + 1 + 1) by lia.
  rewrite slice_1 by lia. cbn [le_value].
  rewrite !Z.shiftl_mul_pow2 by lia.
  change (2 ^ 8) with 256. change (2 ^ 16) with 65536.
  change (2 ^ 24) with 16777216.
  replace (k + 1 + 1) with (k + 2) by lia.
  replace (k + 2 + 1) with (k + 3) by lia. lia.
Qed.

(** The data part of a step: the slice the code takes, its truncation test
    and what it yields. *)
Lemma raw_step_payload self (op : byte) i j datasize :
  0 <= j <= len self -> 0 <= datasize ->
  (let data := slice self j (j + datasize) in
   if len data <? datasize
   then Raise (CScriptTruncatedPushDataError data)
   else Return (((op, Some data, i), j + datasize) : instr * Z))
  = if len self <? j + datasize
    then Raise (CScriptTruncatedPushDataError (slice_from self j))
    else Return ((op, Some (slice self j (j + datasize)), i), j + datasize).
Proof.
  intros Hj Hd. cbv zeta. rewrite len_slice by lia.
  destruct (Z.ltb_spec (len self) (j + datasize)).
  - destruct (Z.ltb_spec (Z.max 0 (Z.min (j + datasize - j) (len self - j)))
                datasize); [|lia].
    rewrite slice_clip by lia. reflexivity.
  - destruct (Z.ltb_spec (Z.max 0 (Z.min (j + datasize - j) (len self - j)))
                datasize); [lia|reflexivity].
Qed.

Lemma raw_step_spec self i :
  0 <= i < len self ->
  CScript.raw_step self i =
    let op := getitem self i in
    match classify self i with
    | NoData => Return ((op, None, i), i + 1)
    | HeaderTruncated => Raise CScriptInvalidError
    | PayloadTruncated =>
        Raise (CScriptTruncatedPushDataError
                 (slice_from self (i + 1 + hdr_len op)))
    | Complete =>
        Return ((op, Some (slice self (i + 1 + hdr_len op)
                             (i + extent self i)), i),
                i + extent self i)
    end.
Proof.
  intros Hi. unfold CScript.raw_step, classify, extent. cbv zeta.
  change (int_of_byte OP_PUSHDATA4) with 78.
  change (int_of_byte OP_PUSHDATA1) with 76.
  change 0x4E with 78.
  pose proof (declared_size_nonneg self i) as Hds.
  destruct (Z.gtb_spec (int_of_byte (getitem self i)) 78) as [Hgt|Hle];
    [reflexivity|].
  destruct (Z.ltb_spec (int_of_byte (getitem self i)) 76) as [Hin|Hres].
  - (* inline length *)
    rewrite hdr_len_inline by assumption. cbn [bind].
    assert (Hd : declared_size self i = int_of_byte (getitem self i)).
    { unfold declared_size.
      destruct (Z.ltb_spec (int_of_byte (getitem self i)) 76); [easy|lia]. }
    rewrite Hd in *.
    rewrite raw_step_payload by lia.
    destruct (Z.ltb_spec (len self) (i + 1 + 0)); [lia|].
    replace (i + 1 + 0) with (i + 1) by lia.
    replace (i + (1 + 0 + int_of_byte (getitem self i)))
      with (i + 1 + int_of_byte (getitem self i)) by lia.
    destruct (len self <? i + 1 + int_of_byte (getitem self i)); reflexivity.
  - assert (Hd : declared_size self i
                 = le_value (slice self (i + 1)
                               (i + 1 + hdr_len (getitem self i)))).
    { unfold declared_size.
      destruct (Z.ltb_spec (int_of_byte (getitem self i)) 76); [lia|easy]. }
    destruct (push_opcode_cases (getitem self i)) as [E|[E|E]]; [lia| | |];
      rewrite E in *.
    + (* OP_PUSHDATA1 *)
      change (hdr_len OP_PUSHDATA1) with 1 in *.
      change (OP_PUSHDATA1 == OP_PUSHDATA1) with true. cbv iota.
      destruct (Z.geb_spec (i + 1) (len self));
        destruct (Z.ltb_spec (len self) (i + 1 + 1)); try lia;
        [reflexivity|].
      cbn [bind]. rewrite le_value_1 in Hd by lia. rewrite Hd.
      rewrite raw_step_payload by (pose proof (int_of_byte_range
                                     (getitem self (i + 1))); lia).
      replace (i + (1 + 1 + int_of_byte (getitem self (i + 1))))
        with (i + 1 + 1 + int_of_byte (getitem self (i + 1))) by lia.
      destruct (len self <? i + 1 + 1 + int_of_byte (getitem self (i + 1)));
        reflexivity.
    + (* OP_PUSHDATA2 *)
      change (hdr_len OP_PUSHDATA2) with 2 in *.
      change (OP_PUSHDATA2 == OP_PUSHDATA1) with false.
      change (OP_PUSHDATA2 == OP_PUSHDATA2) with true. cbv iota.
      destruct (Z.geb_spec (i + 1 + 1) (len self));
        destruct (Z.ltb_spec (len self) (i + 1 + 2)); try lia;
        [reflexivity|].
      cbn [bind]. rewrite le_value_2 in Hd by lia.
      rewrite <- Hd.
      replace (i + 1 + 2) with (i + 1 + 2) by lia.
      rewrite raw_step_payload by lia.
      replace (i + (1 + 2 + declared_size self i))
        with (i + 1 + 2 + declared_size self i) by lia.
      destruct (len self <? i + 1 + 2 + declared_size self i); reflexivity.
    + (* OP_PUSHDATA4 *)
      change (hdr_len OP_PUSHDATA4) with 4 in *.
      change (OP_PUSHDATA4 == OP_PUSHDATA1) with false.
      change (OP_PUSHDATA4 == OP_PUSHDATA2) with false.
      change (OP_PUSHDATA4 == OP_PUSHDATA4) with true. cbv iota.
      destruct (Z.geb_spec (i + 1 + 3) (len self));
        destruct (Z.ltb_spec (len self) (i + 1 + 4)); try lia;
        [reflexivity|].
      cbn [bind]. rewrite le_value_4 in Hd by lia.
      rewrite <- Hd.
      rewrite raw_step_payload by lia.
      replace (i + (1 + 4 + declared_size self i))
        with (i + 1 + 4 + declared_size self i) by lia.
      destruct (len self <? i + 1 + 4 + declared_size self i); reflexivity.
Qed.

Lemma hdr_len_nonneg op : 0 <= hdr_len op.
Proof.
  unfold hdr_len.
  destruct (op == OP_PUSHDATA1); [lia|].
  destruct (op == OP_PUSHDATA2); [lia|].
  destruct (op == OP_PUSHDATA4); lia.
Qed.

Lemma classify_whole self i :
  classify self i = NoData \/ classify self i = Complete ->
  1 <= extent self i
  /\ (0 <= i < len self -> i + extent self i <= len self).
Proof.
  unfold classify, extent.
  pose proof (hdr_len_nonneg (getitem self i)).
  pose proof (declared_size_nonneg self i).
  destruct (int_of_byte (getitem self i) >? 78); [lia|].
  destruct (Z.ltb_spec (len self) (i + 1 + hdr_len (getitem self i)));
    [intros [?|?]; discriminate|].
  destruct (Z.ltb_spec (len self)
              (i + 1 + hdr_len (getitem self i) + declared_size self i));
    [intros [?|?]; discriminate|].
  lia.
Qed.

(** What a step that yields has done. *)
Lemma raw_step_return self i it i' :
  0 <= i < len self ->
  CScript.raw_step self i = Return (it, i') ->
  (classify self i = NoData \/ classify self i = Complete)
  /\ i' = i + extent self i
  /\ i < i' <= len self
  /\ snd it = i
  /\ fst (fst it) = getitem self i
  /\ instr_len it = extent self i
  /\ source self it = slice self i i'
  /\ match snd (fst it) with
     | Some data => len data = declared_size self i
     | None => classify self i = NoData
     end.
Proof.
  intros Hi. rewrite raw_step_spec by assumption. cbv zeta.
  destruct (classify self i) eqn:C; intros [= <- <-].
  - pose proof (classify_whole self i) as W. rewrite C in W.
    destruct W as [W1 W2]; [auto|].
    assert (E : extent self i = 1).
    { unfold extent. unfold classify in C.
      destruct (int_of_byte (getitem self i) >? 78); [reflexivity|].
      destruct (len self <? i + 1 + hdr_len (getitem self i));
        [discriminate|].
      destruct (len self <? _); discriminate. }
    cbn [fst snd instr_len source]. rewrite E. repeat split; auto; lia.
  - pose proof (classify_whole self i) as W. rewrite C in W.
    destruct W as [W1 W2]; [auto|]. specialize (W2 Hi).
    pose proof (hdr_len_nonneg (getitem self i)) as Hh.
    pose proof (declared_size_nonneg self i) as Hd.
    assert (E : extent self i
                = 1 + hdr_len (getitem self i) + declared_size self i).
    { unfold extent. unfold classify in C.
      destruct (int_of_byte (getitem self i) >? 78);
        [discriminate|reflexivity]. }
    assert (L : len (slice self (i + 1 + hdr_len (getitem self i))
                       (i + extent self i)) = declared_size self i).
    { rewrite len_slice by lia. lia. }
    cbn [fst snd instr_len source]. rewrite L.
    repeat split; auto; try lia.
    f_equal. lia.
Qed.

(** Fuel: every yielding step advances, so any fuel of at least
    [len self - i] gives the same iteration from [i]. *)
Lemma raw_iter_loop_fuel self : forall f1 f2 i,
  0 <= i -> len self - i <= Z.of_nat f1 -> len self - i <= Z.of_nat f2 ->
  CScript.raw_iter_loop f1 self i = CScript.raw_iter_loop f2 self i.
Proof.
  induction f1 as [|f1 IH]; intros f2 i Hi H1 H2.
  - destruct f2 as [|f2]; [reflexivity|]. cbn.
    destruct (Z.ltb_spec i (len self)); [lia|reflexivity].
  - destruct f2 as [|f2]; cbn [CScript.raw_iter_loop].
    + destruct (Z.ltb_spec i (len self)); [lia|reflexivity].
    + destruct (Z.ltb_spec i (len self)); [|reflexivity].
      destruct (CScript.raw_step self i) as [[it i']|e] eqn:S; [|reflexivity].
      apply raw_step_return in S; [|lia].
      f_equal. apply IH; lia.
Qed.

Lemma raw_iter_is_from self : CScript.raw_iter self = raw_iter_from self 0.
Proof.
  unfold CScript.raw_iter, raw_iter_from, len.
  apply raw_iter_loop_fuel; unfold len; lia.
Qed.

(** The loop of [raw_iter], as an equation. *)
Lemma raw_iter_from_unfold self i :
  0 <= i ->
  raw_iter_from self i =
    if i <? len self then
      match CScript.raw_step self i with
      | Raise e => SRaise e
      | Return (yield, i') => SCons yield (raw_iter_from self i')
      end
    else SNil.
Proof.
  intros Hi. unfold raw_iter_from.
  destruct (Z.ltb_spec i (len self)) as [Hlt|Hge].
  - destruct (Z.to_nat (len self - i)) as [|f] eqn:F; [lia|].
    cbn [CScript.raw_iter_loop].
    destruct (Z.ltb_spec i (len self)); [|lia].
    destruct (CScript.raw_step self i) as [[it i']|e] eqn:S; [|reflexivity].
    apply raw_step_return in S; [|lia].
    f_equal. apply raw_iter_loop_fuel; lia.
  - replace (Z.to_nat (len self - i)) with 0%nat by lia. reflexivity.
Qed.

(* ------------------------------------------------------------------ *)
(** ** Truncated pushes *)

Lemma decode_op_n_small op :
  CScriptOp.is_small_int op = true ->
  CScriptOp.decode_op_n op
  = Return (if int_of_byte op =? 0 then 0 else int_of_byte op - 80).
Proof.
  destruct op; intros H; vm_compute in H; try discriminate H; reflexivity.
Qed.

(** Cooked iteration stops the way raw iteration does. *)
Lemma outcome_cooked raw : outcome (CScript.cooked raw) = outcome raw.
Proof.
  induction raw as [|[[op data] idx] rest IH|e]; cbn; auto.
  destruct data as [d|]; cbn; auto.
  destruct (CScriptOp.is_small_int op) eqn:S; cbn; auto.
  rewrite decode_op_n_small by assumption. cbn. auto.
Qed.

Lemma boundary_nonneg self i : boundary self i -> 0 <= i.
Proof.
  induction 1 as [|i B IH Hlt C]; [lia|].
  pose proof (classify_whole self i C). lia.
Qed.

Lemma raw_iter_from_whole self i :
  0 <= i < len self ->
  classify self i = NoData \/ classify self i = Complete ->
  exists it,
    raw_iter_from self i = SCons it (raw_iter_from self (i + extent self i)).
Proof.
  intros Hi C. rewrite raw_iter_from_unfold by lia.
  destruct (Z.ltb_spec i (len self)); [|lia].
  rewrite raw_step_spec by lia. cbv zeta.
  destruct C as [C|C]; rewrite C.
  - assert (E : extent self i = 1).
    { unfold extent. unfold classify in C.
      destruct (int_of_byte (getitem self i) >? 78); [reflexivity|].
      destruct (len self <? i + 1 + hdr_len (getitem self i));
        [discriminate|].
      destruct (len self <? _); discriminate. }
    rewrite E. eexists. reflexivity.
  - eexists. reflexivity.
Qed.

(** The walk from the start and the walk from any later instruction
    boundary stop the same way. *)
Lemma outcome_boundary self i :
  boundary self i ->
  outcome (CScript.raw_iter self) = outcome (raw_iter_from self i).
Proof.
  induction 1 as [|i B IH Hlt C].
  - now rewrite raw_iter_is_from.
  - pose proof (boundary_nonneg self i B).
    destruct (raw_iter_from_whole self i) as [it E]; [lia|assumption|].
    rewrite IH, E. reflexivity.
Qed.

Lemma len_slice_from s i : 0 <= i -> len (slice_from s i) = Z.max 0 (len s - i).
Proof.
  intros Hi. unfold len, slice_from. rewrite length_skipn. lia.
Qed.

Lemma raw_iter_loop_full self : forall fuel i,
  0 <= i ->
  Forall (full_payload self) (yielded (CScript.raw_iter_loop fuel self i)).
Proof.
  induction fuel as [|fuel IH]; intros i Hi; cbn; [constructor|].
  destruct (Z.ltb_spec i (len self)); [|constructor].
  destruct (CScript.raw_step self i) as [[it i']|e] eqn:S; [|constructor].
  apply raw_step_return in S; [|lia].
  destruct S as (_ & _ & Hi' & Hidx & _ & _ & _ & Hdata).
  cbn. constructor; [|apply IH; lia].
  destruct it as [[op data] idx]. cbn in *. subst idx.
  destruct data; auto.
Qed.

(** C6, as stated, fails on the script [PUSHDATA1] with its length byte
    missing: both iterations raise [CScriptInvalidError], the base class,
    which has no [data] field and is not the truncated-push-data error. *)
Lemma missing_length_error_has_no_data :
  classify [OP_PUSHDATA1] 0 = HeaderTruncated
  /\ CScript.raw_iter [OP_PUSHDATA1] = SRaise CScriptInvalidError
  /\ CScript.iter [OP_PUSHDATA1] = SRaise CScriptInvalidError
  /\ forall data : bytes,
       outcome (CScript.raw_iter [OP_PUSHDATA1])
       <> Some (CScriptTruncatedPushDataError data).
Proof.
  split; [reflexivity|]. split; [reflexivity|]. split; [reflexivity|].
  intros data H. discriminate H.
Qed.

(* ------------------------------------------------------------------ *)
(** ** Byte-pattern deletion *)

Lemma slice_whole s : slice s 0 (len s) = s.
Proof.
  unfold slice, len. cbn [Z.to_nat skipn].
  rewrite Z.sub_0_r, Nat2Z.id. apply firstn_all.
Qed.

(** The loop invariant: the result so far, the pending source range
    [last_sop_idx .. i] of the previous instruction (if it is kept), and the
    kept instructions still to come. *)
Lemma FindAndDelete_loop_spec script sig : forall fuel i r last skip,
  0 <= last <= i -> i <= len script -> len script - i <= Z.of_nat fuel ->
  outcome (CScript.raw_iter_loop fuel script i) = None ->
  exists r' last' skip',
    FindAndDelete_loop script sig (CScript.raw_iter_loop fuel script i)
      r last skip = Return (r', last', skip')
    /\ (if negb skip' then r' ++ slice_from script last' else r')
       = r ++ (if negb skip then slice script last i else [])
           ++ concat (map (source script)
                        (filter (kept script sig)
                           (yielded (CScript.raw_iter_loop fuel script i)))).
Proof.
  assert (Stop : forall i r last skip,
    0 <= last <= i -> len script <= i ->
    (if negb skip then r ++ slice_from script last else r)
    = r ++ (if negb skip then slice script last i else []) ++ []).
  { intros i r last skip Hl Hi. rewrite app_nil_r.
    destruct skip; cbn [negb].
    - now rewrite app_nil_r.
    - now rewrite slice_clip by lia. }
  induction fuel as [|fuel IH]; intros i r last skip Hl Hi Hf Hout.
  - cbn. eexists _, _, _. split; [reflexivity|]. apply Stop; lia.
  - cbn [CScript.raw_iter_loop] in *.
    destruct (Z.ltb_spec i (len script)) as [Hlt|Hge].
    2:{ cbn. eexists _, _, _. split; [reflexivity|]. apply Stop; lia. }
    destruct (CScript.raw_step script i) as [[it i']|e] eqn:S;
      [|discriminate Hout].
    apply raw_step_return in S; [|lia].
    destruct S as (_ & _ & Hi' & Hidx & _ & _ & Hsrc & _).
    destruct it as [[op data] idx]. cbn [snd] in Hidx. subst idx.
    cbn [outcome] in Hout.
    cbn [FindAndDelete_loop yielded filter].
    set (r1 := if negb skip then r ++ slice script last i else r).
    set (skip1 := bytes_eqb (slice script i (i + len sig)) sig).
    destruct (IH i' r1 i skip1) as (r' & last' & skip' & E & F);
      [lia|lia|lia|exact Hout|].
    exists r', last', skip'. split; [exact E|].
    rewrite F. unfold kept at 2. cbn [matches]. fold skip1.
    unfold r1. rewrite <- Hsrc.
    destruct skip, skip1; cbn [negb map concat app];
      rewrite <- ?app_assoc, ?app_nil_r; reflexivity.
Qed.

(** The source ranges of the yielded instructions tile the script. *)
Lemma sources_tile script : forall fuel i,
  0 <= i <= len script -> len script - i <= Z.of_nat fuel ->
  outcome (CScript.raw_iter_loop fuel script i) = None ->
  concat (map (source script) (yielded (CScript.raw_iter_loop fuel script i)))
  = slice script i (len script).
Proof.
  induction fuel as [|fuel IH]; intros i Hi Hf Hout.
  - cbn. now rewrite slice_empty by lia.
  - cbn [CScript.raw_iter_loop] in *.
    destruct (Z.ltb_spec i (len script)) as [Hlt|Hge].
    2:{ cbn. now rewrite slice_empty by lia. }
    destruct (CScript.raw_step script i) as [[it i']|e] eqn:S;
      [|discriminate Hout].
    apply raw_step_return in S; [|lia].
    destruct S as (_ & _ & Hi' & _ & _ & _ & Hsrc & _).
    cbn [outcome] in Hout. cbn [yielded map concat].
    rewrite IH, Hsrc by (assumption || lia).
    symmetry. apply slice_split; lia.
Qed.

(** C7: for a script that raw-iterates without error, [FindAndDelete]
    returns the concatenation, in order, of the verbatim source bytes of the
    instructions at whose offset the next [len sig] bytes differ from [sig];
    the source ranges are those of the script itself (they tile it), so kept
    pushes keep their original encoding and matching instructions are left
    out. *)
Theorem find_and_delete_keeps_unmatched :
  forall script sig : bytes,
    outcome (CScript.raw_iter script) = None ->
    FindAndDelete script sig
    = Return (concat (map (source script)
                        (filter (fun it => negb (matches script sig it))
                           (yielded (CScript.raw_iter script)))))
    /\ concat (map (source script) (yielded (CScript.raw_iter script)))
       = script.
Proof.
  intros script sig Hout. unfold CScript.raw_iter in *. split.
  - unfold FindAndDelete, CScript.raw_iter.
    destruct (FindAndDelete_loop_spec script sig (length script) 0 [] 0 true)
      as (r' & last' & skip' & E & F);
      [lia|apply len_nonneg|unfold len; lia|exact Hout|].
    rewrite E. cbn [bind]. rewrite F. reflexivity.
  - rewrite sources_tile; [apply slice_whole| |unfold len; lia|exact Hout].
    pose proof (len_nonneg script). lia.
Qed.

Lemma find_and_delete_keeps_unmatched_witness :
  let script := [x01; x76; OP_DUP; x4c; x01; x88; OP_EQUALVERIFY] in
  let sig := [OP_DUP] in
  FindAndDelete script sig
  = Return (concat (map (source script)
                      (filter (fun it => negb (matches script sig it))
                         (yielded (CScript.raw_iter script)))))
  /\ concat (map (source script) (yielded (CScript.raw_iter script)))
     = script.
Proof.
  apply (find_and_delete_keeps_unmatched
           [x01; x76; OP_DUP; x4c; x01; x88; OP_EQUALVERIFY] [OP_DUP]).
  reflexivity.
Defined.

(* ------------------------------------------------------------------ *)
(** ** Signature-operation count *)

(** C2: on the script [push 2, CHECKMULTISIG] the counter in accurate
    mode does not return 2: the guard tests the preceding opcode, but
    [decode_op_n] is applied to the multi-signature opcode itself, which is
    not a small-integer opcode, and [ValueError] is raised.  In non-accurate
    mode it returns the conservative bound 20, and a single-signature check
    counts 1. *)
Theorem sigop_accurate_multisig_raises :
  CScript.raw_iter [x52; OP_CHECKMULTISIG]
  = SCons (x52, None, 0) (SCons (OP_CHECKMULTISIG, None, 1) SNil)
  /\ CScriptOp.decode_op_n x52 = Return 2
  /\ CScriptOp.decode_op_n OP_CHECKMULTISIG = Raise ValueError
  /\ CScriptOp.decode_op_n OP_CHECKMULTISIGVERIFY = Raise ValueError
  /\ CScript.GetSigOpCount [x52; OP_CHECKMULTISIG] true = Raise ValueError
  /\ CScript.GetSigOpCount [x52; OP_CHECKMULTISIG] false = Return 20
  /\ CScript.GetSigOpCount [OP_CHECKSIG; OP_CHECKSIGVERIFY] true = Return 2.
Proof.
  repeat split; reflexivity.
Qed.

(* ------------------------------------------------------------------ *)
(** ** Build, then iterate *)

Lemma getitem_at pre x post : getitem (pre ++ x :: post) (len pre) = x.
Proof.
  unfold getitem, len. rewrite Nat2Z.id. apply nth_middle.
Qed.

Lemma slice_mid pre mid post a b :
  a = len pre -> b = a + len mid -> slice (pre ++ mid ++ post) a b = mid.
Proof.
  intros -> ->. unfold slice, len.
  rewrite Nat2Z.id, skipn_app, skipn_all, Nat.sub_diag. cbn [app skipn].
  replace (Z.to_nat (Z.of_nat (length pre) + Z.of_nat (length mid)
                     - Z.of_nat (length pre))) with (length mid) by lia.
  rewrite firstn_app, firstn_all, Nat.sub_diag. cbn. apply app_nil_r.
Qed.

Lemma len_cons {A} (x : A) xs : len (x :: xs) = 1 + len xs.
Proof. unfold len. cbn [length]. lia. Qed.

(** An opcode above [OP_PUSHDATA4] is read back as itself. *)
Lemma raw_iter_from_opcode pre op rest :
  int_of_byte op > 78 ->
  raw_iter_from (pre ++ [op] ++ rest) (len pre)
  = SCons (op, None, len pre)
      (raw_iter_from (pre ++ [op] ++ rest) (len pre + 1)).
Proof.
  intros Hop. pose proof (len_nonneg pre). pose proof (len_nonneg rest).
  cbn [app].
  assert (L : len (pre ++ op :: rest) = len pre + 1 + len rest)
    by (rewrite len_app, len_cons; lia).
  rewrite raw_iter_from_unfold by lia.
  destruct (Z.ltb_spec (len pre) (len (pre ++ op :: rest))); [|lia].
  rewrite raw_step_spec by lia. cbv zeta.
  unfold classify. rewrite getitem_at.
  destruct (Z.gtb_spec (int_of_byte op) 78); [reflexivity|lia].
Qed.

(** A complete push [op :: hdr ++ d] is read back as its payload [d]. *)
Lemma raw_iter_from_push pre op hdr d rest :
  int_of_byte op <= 78 ->
  len hdr = hdr_len op ->
  (if int_of_byte op <? 76 then int_of_byte op else le_value hdr) = len d ->
  let self := pre ++ (op :: hdr ++ d) ++ rest in
  raw_iter_from self (len pre)
  = SCons (op, Some d, len pre)
      (raw_iter_from self (len pre + len (op :: hdr ++ d))).
Proof.
  intros Hop Hh Hd self.
  pose proof (len_nonneg pre). pose proof (len_nonneg rest).
  pose proof (len_nonneg hdr). pose proof (len_nonneg d).
  assert (L : len self = len pre + (1 + len hdr + len d) + len rest).
  { unfold self. rewrite !len_app, len_cons, len_app. lia. }
  assert (G : getitem self (len pre) = op).
  { unfold self. cbn [app]. apply getitem_at. }
  assert (S1 : slice self (len pre + 1) (len pre + 1 + hdr_len op) = hdr).
  { unfold self.
    replace (pre ++ (op :: hdr ++ d) ++ rest)
      with ((pre ++ [op]) ++ hdr ++ (d ++ rest))
      by (cbn [app]; rewrite <- !app_assoc; reflexivity).
    apply slice_mid; rewrite ?len_app, ?len_cons;
      change (len (@nil byte)) with 0; lia. }
  assert (D : declared_size self (len pre) = len d).
  { unfold declared_size. cbv zeta. rewrite G, S1. exact Hd. }
  assert (S2 : slice self (len pre + 1 + hdr_len op)
                 (len pre + extent self (len pre)) = d
               /\ extent self (len pre) = 1 + len hdr + len d).
  { assert (E : extent self (len pre) = 1 + len hdr + len d).
    { unfold extent. rewrite G, D.
      destruct (Z.gtb_spec (int_of_byte op) 78); lia. }
    split; [|exact E]. rewrite E. unfold self.
    replace (pre ++ (op :: hdr ++ d) ++ rest)
      with ((pre ++ op :: hdr) ++ d ++ rest)
      by (cbn [app]; rewrite <- !app_assoc; reflexivity).
    apply slice_mid; rewrite ?len_app, ?len_cons; lia. }
  destruct S2 as [S2 E].
  rewrite raw_iter_from_unfold by lia.
  destruct (Z.ltb_spec (len pre) (len self)); [|lia].
  rewrite raw_step_spec by lia. cbv zeta.
  assert (C : classify self (len pre) = Complete).
  { unfold classify. rewrite G, D.
    destruct (Z.gtb_spec (int_of_byte op) 78); [lia|].
    destruct (Z.ltb_spec (len self) (len pre + 1 + hdr_len op)); [lia|].
    destruct (Z.ltb_spec (len self) (len pre + 1 + hdr_len op + len d));
      [lia|reflexivity]. }
  rewrite C, G, S2, E. rewrite len_cons, len_app.
  replace (len pre + (1 + (len hdr + len d)))
    with (len pre + (1 + len hdr + len d)) by lia.
  reflexivity.
Qed.

Lemma shiftr_nonneg a k : 0 <= a -> 0 <= Z.shiftr a k.
Proof. intros. now apply Z.shiftr_nonneg. Qed.

Lemma le_value_pack_H n : 0 <= n <= 0xFFFF -> le_value (pack_H n) = n.
Proof.
  intros Hn. unfold pack_H. cbn [le_value].
  rewrite !int_of_byte_of_int
    by (apply land_255_range; try apply shiftr_nonneg; lia).
  rewrite (byte_split n) at 3 by lia.
  rewrite (byte_split (Z.shiftr n 8)) at 2 by (apply shiftr_nonneg; lia).
  rewrite Z.shiftr_shiftr by lia. change (8 + 8) with 16.
  replace (Z.shiftr n 16) with 0; [lia|].
  rewrite Z.shiftr_div_pow2 by lia. symmetry. apply Z.div_small.
  change (2 ^ 16) with 65536. lia.
Qed.

Lemma le_value_pack_I n : 0 <= n <= 0xFFFFFFFF -> le_value (pack_I n) = n.
Proof.
  intros Hn. unfold pack_I. cbn [le_value].
  rewrite !int_of_byte_of_int
    by (apply land_255_range; try apply shiftr_nonneg; lia).
  rewrite (byte_split n) at 5 by lia.
  rewrite (byte_split (Z.shiftr n 8)) at 2 by (apply shiftr_nonneg; lia).
  rewrite (Z.shiftr_shiftr n 8 8) by lia. change (8 + 8) with 16.
  rewrite (byte_split (Z.shiftr n 16)) at 2 by (apply shiftr_nonneg; lia).
  rewrite (Z.shiftr_shiftr n 16 8) by lia. change (16 + 8) with 24.
  rewrite (byte_split (Z.shiftr n 24)) at 2 by (apply shiftr_nonneg; lia).
  rewrite (Z.shiftr_shiftr n 24 8) by lia. change (24 + 8) with 32.
  replace (Z.shiftr n 32) with 0; [lia|].
  rewrite Z.shiftr_div_pow2 by lia. symmetry. apply Z.div_small.
  change (2 ^ 32) with 4294967296. lia.
Qed.

(** The four push encodings share one shape: an opcode of at most
    [OP_PUSHDATA4], its length bytes, and the payload unchanged. *)
Lemma encode_op_pushdata_shape d :
  len d <= 0xFFFFFFFF ->
  exists op hdr,
    CScriptOp.encode_op_pushdata d = Return (op :: hdr ++ d)
    /\ int_of_byte op <= 78
    /\ len hdr = hdr_len op
    /\ (if int_of_byte op <? 76 then int_of_byte op else le_value hdr)
       = len d.
Proof.
  intros Hd. pose proof (len_nonneg d) as H0.
  unfold CScriptOp.encode_op_pushdata.
  destruct (Z.ltb_spec (len d) 0x4C) as [H1|H1].
  - exists (byte_of_int (len d)), [].
    assert (E : int_of_byte (byte_of_int (len d)) = len d)
      by (apply int_of_byte_of_int; lia).
    rewrite E, hdr_len_inline by lia.
    destruct (Z.ltb_spec (len d) 76); [|lia]. repeat split. lia.
  - destruct (Z.leb_spec (len d) 0xFF) as [H2|H2].
    + exists x4c, [byte_of_int (len d)].
        split; [reflexivity|]. split; [vm_compute; discriminate|].
        split; [reflexivity|].
      change (int_of_byte x4c <? 76) with false. cbv iota.
      cbn [le_value]. rewrite int_of_byte_of_int by lia. lia.
    + destruct (Z.leb_spec (len d) 0xFFFF) as [H3|H3].
      * exists x4d, (pack_H (len d)).
        split; [reflexivity|]. split; [vm_compute; discriminate|].
        split; [reflexivity|].
        change (int_of_byte x4d <? 76) with false. cbv iota.
        apply le_value_pack_H. lia.
      * destruct (Z.leb_spec (len d) 0xFFFFFFFF) as [H4|H4]; [|lia].
        exists x4e, (pack_I (len d)).
        split; [reflexivity|]. split; [vm_compute; discriminate|].
        split; [reflexivity|].
        change (int_of_byte x4e <? 76) with false. cbv iota.
        apply le_value_pack_I. lia.
Qed.

Lemma iter_is_from self : CScript.iter self = iter_from self 0.
Proof. unfold CScript.iter, iter_from. now rewrite raw_iter_is_from. Qed.

Lemma iter_from_push d :
  len d <= 0xFFFFFFFF ->
  exists enc,
    CScriptOp.encode_op_pushdata d = Return enc
    /\ forall pre rest,
         iter_from (pre ++ enc ++ rest) (len pre)
         = SCons (IBytes d)
             (iter_from (pre ++ enc ++ rest) (len pre + len enc)).
Proof.
  intros Hd.
  destruct (encode_op_pushdata_shape d Hd) as (op & hdr & E & H1 & H2 & H3).
  exists (op :: hdr ++ d). split; [exact E|]. intros pre rest.
  unfold iter_from. rewrite raw_iter_from_push by assumption. reflexivity.
Qed.

Lemma iter_from_opcode pre op rest :
  int_of_byte op > 78 ->
  iter_from (pre ++ [op] ++ rest) (len pre)
  = SCons (if CScriptOp.is_small_int op then IInt (int_of_byte op - 80)
           else IOp op)
      (iter_from (pre ++ [op] ++ rest) (len pre + len [op])).
Proof.
  intros Hop. unfold iter_from. rewrite raw_iter_from_opcode by assumption.
  cbn [CScript.cooked].
  destruct (CScriptOp.is_small_int op) eqn:S; [|reflexivity].
  rewrite decode_op_n_small by assumption.
  destruct (Z.eqb_spec (int_of_byte op) 0); [lia|reflexivity].
Qed.

Lemma iter_from_op_0 pre rest :
  iter_from (pre ++ [x00] ++ rest) (len pre)
  = SCons (IBytes []) (iter_from (pre ++ [x00] ++ rest) (len pre + len [x00])).
Proof.
  destruct (iter_from_push []) as (enc & E & F); [vm_compute; discriminate|].
  change (CScriptOp.encode_op_pushdata []) with (Return [x00]) in E.
  injection E as <-. apply F.
Qed.

Lemma iter_from_end pre : iter_from (pre ++ []) (len pre) = SNil.
Proof.
  unfold iter_from. rewrite app_nil_r.
  rewrite raw_iter_from_unfold by apply len_nonneg.
  destruct (Z.ltb_spec (len pre) (len pre)); [lia|reflexivity].
Qed.

Section RoundTrip.
Variable bn2vch : Z -> bytes.

  (** One coerced value is read back as its logical item, wherever its
      bytes sit in the script. *)
Lemma coerce_read_back v :
    readable bn2vch v = true ->
    exists enc,
      CScript.coerce_instance bn2vch (inject v) = Return enc
      /\ forall pre rest,
           iter_from (pre ++ enc ++ rest) (len pre)
           = SCons (logical bn2vch v)
               (iter_from (pre ++ enc ++ rest) (len pre + len enc)).
  Proof.
    destruct v as [op|n|b]; cbn [readable inject logical
                                  CScript.coerce_instance]; intros R.
    - (* opcode *)
      exists [op]. split; [reflexivity|]. intros pre rest.
      destruct (Z.eqb_spec (int_of_byte op) 0) as [E|E].
      + assert (op = x00) by (apply int_of_byte_inj; rewrite E; reflexivity).
        subst op. apply iter_from_op_0.
      + cbn [orb] in R. apply iter_from_opcode.
        apply Z.gtb_lt in R. lia.
    - (* native integer *)
      destruct (Z.leb_spec 0 n) as [H0|H0];
        [destruct (Z.leb_spec n 16) as [H16|H16]|]; cbn [andb orb] in *.
      + (* 0..16: the small-integer opcodes *)
        unfold CScriptOp.encode_op_n.
        destruct (Z.leb_spec 0 n); [|lia]. destruct (Z.leb_spec n 16); [|lia].
        cbn [andb negb].
        destruct (Z.eqb_spec n 0) as [->|Hn]; cbn [bind].
        * exists [x00]. split; [reflexivity|]. intros pre rest.
          apply iter_from_op_0.
        * eexists. split; [reflexivity|]. intros pre rest.
          change (int_of_byte OP_1) with 81.
          assert (I : int_of_byte (byte_of_int (81 + n - 1)) = 80 + n)
            by (rewrite int_of_byte_of_int; lia).
          rewrite iter_from_opcode by lia.
          unfold CScriptOp.is_small_int. rewrite I.
          destruct (Z.leb_spec 81 (80 + n)); [|lia].
          destruct (Z.leb_spec (80 + n) 96); [|lia].
          destruct (Z.leb_spec 1 n); [|lia].
          cbn [andb orb]. do 2 f_equal. lia.
      + (* above 16: a push of [bn2vch n] *)
        destruct (Z.eqb_spec n (-1)); [lia|]. cbn [orb] in R.
        destruct (Z.eqb_spec n 0); [lia|].
        destruct (Z.leb_spec 1 n); [|lia]. cbn [andb].
        apply iter_from_push. apply Z.leb_le. exact R.
      + (* negative *)
        destruct (Z.eqb_spec n 0); [lia|].
        destruct (Z.leb_spec 1 n); [lia|]. cbn [andb].
        destruct (Z.eqb_spec n (-1)) as [E1|Hm].
        * exists [OP_1NEGATE]. split; [reflexivity|]. intros pre rest.
          rewrite iter_from_opcode by (vm_compute; reflexivity).
          reflexivity.
        * cbn [orb] in R. apply iter_from_push. apply Z.leb_le. exact R.
    - (* raw bytes *)
      apply iter_from_push. apply Z.leb_le. exact R.
  Qed.

Lemma new_read_back vs :
    forallb (readable bn2vch) vs = true ->
    exists s,
      CScript.new bn2vch (map inject vs) = Return s
      /\ forall pre,
           iter_from (pre ++ s) (len pre)
           = stream_of_list (map (logical bn2vch) vs).
  Proof.
    induction vs as [|v vs IH]; cbn [forallb map CScript.new stream_of_list];
      intros R.
    - exists []. split; [reflexivity|]. apply iter_from_end.
    - apply andb_true_iff in R. destruct R as [Rv Rvs].
      destruct (coerce_read_back v Rv) as (enc & E & F).
      destruct (IH Rvs) as (s & Es & Fs).
      exists (enc ++ s). rewrite E, Es. split; [reflexivity|].
      intros pre. rewrite F. f_equal.
      rewrite app_assoc, <- len_app. apply Fs.
  Qed.
End RoundTrip.

(** C8 (amended): for every sequence of opcodes other than the push
    opcodes 0x01..0x4e, native integers and raw byte strings (pushes within
    the four-byte length field), the build succeeds and cooked iteration of
    the built script yields, in order, one item per value: raw bytes as
    themselves; an integer 1..16 as itself; the integer 0 and the opcode
    [OP_0] as the empty byte string; -1 as the opcode [OP_1NEGATE]; any
    other integer as its [bn2vch] bytes; a small-integer opcode
    [OP_1]..[OP_16] as the integer 1..16; any other opcode as itself. *)
Theorem build_then_iterate :
  forall (bn2vch : Z -> bytes) (vs : list value),
    forallb (readable bn2vch) vs = true ->
    exists s : bytes,
      CScript.new bn2vch (map inject vs) = Return s
      /\ CScript.iter s = stream_of_list (map (logical bn2vch) vs).
Proof.
  intros bn2vch vs R.
  destruct (new_read_back bn2vch vs R) as (s & E & F).
  exists s. split; [exact E|].
  rewrite iter_is_from. exact (F []).
Qed.

Lemma build_then_iterate_witness :
  let bn2vch := fun _ : Z => [] in
  let vs := [VOp OP_DUP; VInt 5; VInt 0; VInt (-1); VBytes [x01; x02];
             VOp OP_16] in
  exists s : bytes,
    CScript.new bn2vch (map inject vs) = Return s
    /\ CScript.iter s = stream_of_list (map (logical bn2vch) vs).
Proof.
  apply (build_then_iterate (fun _ : Z => [])
           [VOp OP_DUP; VInt 5; VInt 0; VInt (-1); VBytes [x01; x02];
            VOp OP_16]).
  reflexivity.
Defined.

(** C8, as stated, fails: the script built from the single opcode
    [OP_PUSHDATA1] cannot be iterated ([CScriptInvalidError]), the one built
    from the opcode 0x01 neither (its payload is missing), and the integer 0
    is read back as the empty byte string, not as 0. *)
Lemma build_push_opcode_not_read_back :
  CScript.new (fun _ : Z => []) [CoOp OP_PUSHDATA1] = Return [OP_PUSHDATA1]
  /\ CScript.iter [OP_PUSHDATA1] = SRaise CScriptInvalidError
  /\ CScript.new (fun _ : Z => []) [CoOp x01] = Return [x01]
  /\ CScript.iter [x01] = SRaise (CScriptTruncatedPushDataError [])
  /\ CScript.new (fun _ : Z => []) [CoInt 0] = Return [x00]
  /\ CScript.iter [x00] = SCons (IBytes []) SNil.
Proof.
  repeat split; reflexivity.
Qed.

(* ================================================================== *)
(** * Further properties of the script library *)

(* ------------------------------------------------------------------ *)
(** ** Small-integer opcodes and push encodings *)

(** [encode_op_n] accepts exactly 0..16; the opcode it returns is a
    small-integer opcode that [decode_op_n] maps back to [n]. *)
Theorem encode_op_n_decode_op_n :
  forall n : Z,
    if (0 <=? n) && (n <=? 16)
    then exists op : byte,
        CScriptOp.encode_op_n n = Return op
        /\ CScriptOp.is_small_int op = true
        /\ CScriptOp.decode_op_n op = Return n
    else CScriptOp.encode_op_n n = Raise ValueError.
Proof.
  intros n. unfold CScriptOp.encode_op_n.
  destruct (Z.leb_spec 0 n) as [H0|H0]; cbn [andb negb]; [|reflexivity].
  destruct (Z.leb_spec n 16) as [H1|H1]; cbn [negb]; [|reflexivity].
  assert (E : n = Z.of_nat (Z.to_nat n)) by lia.
  assert (B : (Z.to_nat n <= 16)%nat) by lia.
  revert E B. generalize (Z.to_nat n) as k. intros k -> B.
  do 17 (destruct k as [|k]; [eexists; repeat split; reflexivity|]).
  lia.
Qed.

(** [decode_op_n] returns exactly on the small-integer opcodes ([OP_0] and
    [OP_1]..[OP_16]), with a value in 0..16 that [encode_op_n] maps back to
    the opcode; on every other opcode it raises [ValueError]. *)
Theorem decode_op_n_encode_op_n :
  forall op : byte,
    if CScriptOp.is_small_int op
    then exists n : Z,
        CScriptOp.decode_op_n op = Return n
        /\ (0 <=? n) && (n <=? 16) = true
        /\ CScriptOp.encode_op_n n = Return op
    else CScriptOp.decode_op_n op = Raise ValueError.
Proof.
  intros op.
  destruct op;
    first [ reflexivity | eexists; repeat split; reflexivity ].
Qed.

Lemma raw_iter_from_len self : raw_iter_from self (len self) = SNil.
Proof.
  rewrite raw_iter_from_unfold by apply len_nonneg.
  destruct (Z.ltb_spec (len self) (len self)); [lia|reflexivity].
Qed.

Lemma hdr_len_cases op :
  hdr_len op = 0 \/ hdr_len op = 1 \/ hdr_len op = 2 \/ hdr_len op = 4.
Proof.
  unfold hdr_len.
  destruct (op == OP_PUSHDATA1); [auto|].
  destruct (op == OP_PUSHDATA2); [auto|].
  destruct (op == OP_PUSHDATA4); auto.
Qed.

(** [encode_op_pushdata] raises [ValueError] exactly when the data is longer
    than 0xFFFFFFFF bytes.  Otherwise the encoding is one opcode, the
    shortest length field that fits (none below 0x4c bytes, then 1, 2 or 4
    bytes) and the data; raw iteration of it yields that single push with
    the data unchanged. *)
Theorem encode_op_pushdata_raw_iter :
  forall d : bytes,
    if len d <=? 0xFFFFFFFF
    then exists (op : byte) (enc : bytes),
        CScriptOp.encode_op_pushdata d = Return enc
        /\ CScript.raw_iter enc = SCons (op, Some d, 0) SNil
        /\ len enc = 1 + hdr_len op + len d
        /\ hdr_len op = (if len d <? 0x4C then 0
                        else if len d <=? 0xFF then 1
                        else if len d <=? 0xFFFF then 2 else 4)
    else CScriptOp.encode_op_pushdata d = Raise ValueError.
Proof.
  intros d. pose proof (len_nonneg d) as H0.
  destruct (Z.leb_spec (len d) 0xFFFFFFFF) as [Hd|Hd].
  - destruct (encode_op_pushdata_shape d Hd) as (op & hdr & E & H1 & H2 & H3).
    exists op, (op :: hdr ++ d). split; [exact E|].
    assert (L : len (op :: hdr ++ d) = 1 + hdr_len op + len d)
      by (rewrite len_cons, len_app; lia).
    split; [|split; [exact L|]].
    + rewrite raw_iter_is_from.
      pose proof (raw_iter_from_push [] op hdr d [] H1 H2 H3) as R.
      cbv zeta in R. cbn [app] in R. rewrite app_nil_r in R.
      change (len (@nil byte)) with 0 in R. rewrite R.
      f_equal. change (0 + len (op :: hdr ++ d)) with (len (op :: hdr ++ d)).
      apply raw_iter_from_len.
    + unfold CScriptOp.encode_op_pushdata in E.
      destruct (Z.ltb_spec (len d) 0x4C).
      * injection E as E1 _. rewrite <- E1.
        apply hdr_len_inline. rewrite int_of_byte_of_int; lia.
      * destruct (Z.leb_spec (len d) 0xFF);
          [injection E as <- _; reflexivity|].
        destruct (Z.leb_spec (len d) 0xFFFF);
          [injection E as <- _; reflexivity|].
        destruct (Z.leb_spec (len d) 0xFFFFFFFF); [|lia].
        injection E as <- _; reflexivity.
  - unfold CScriptOp.encode_op_pushdata.
    destruct (Z.ltb_spec (len d) 0x4C); [lia|].
    destruct (Z.leb_spec (len d) 0xFF); [lia|].
    destruct (Z.leb_spec (len d) 0xFFFF); [lia|].
    destruct (Z.leb_spec (len d) 0xFFFFFFFF); [lia|reflexivity].
Qed.

(* ------------------------------------------------------------------ *)
(** ** More on the numeric stack encoding *)

(** The checked subtraction on a left operand inside the signed 64-bit
    range returns the difference exactly when the difference is inside the
    range too, and fails its assertion otherwise. *)
Theorem checked_sub_in_range :
  forall self other : Z,
    min_int64 <= self <= max_int64 ->
    CScriptNum.sub self other =
      if (min_int64 <=? self - other) && (self - other <=? max_int64)
      then Return (self - other)
      else Raise AssertionError.
Proof.
  intros self other H. unfold CScriptNum.sub. cbv zeta.
  destruct (Z.eqb_spec other 0) as [->|H0]; cbn [orb].
  - replace (self - 0) with self by lia.
    destruct (Z.leb_spec min_int64 self); [|lia].
    destruct (Z.leb_spec self max_int64); [reflexivity|lia].
  - rewrite Z.gtb_ltb, Z.geb_leb.
    destruct (Z.ltb_spec 0 other); destruct (Z.ltb_spec other 0);
      try lia; cbn [andb orb].
    + destruct (Z.leb_spec (min_int64 + other) self);
        destruct (Z.leb_spec min_int64 (self - other)); try lia;
        cbn [andb orb]; [|reflexivity].
      destruct (Z.leb_spec (self - other) max_int64); [reflexivity|lia].
    + destruct (Z.leb_spec self (max_int64 + other));
        destruct (Z.leb_spec (self - other) max_int64); try lia;
        rewrite ?andb_false_r; cbn [andb orb]; [|reflexivity].
      destruct (Z.leb_spec min_int64 (self - other)); [reflexivity|lia].
Qed.

Lemma checked_sub_in_range_witness :
  CScriptNum.sub min_int64 1 =
    if (min_int64 <=? min_int64 - 1) && (min_int64 - 1 <=? max_int64)
    then Return (min_int64 - 1)
    else Raise AssertionError.
Proof.
  apply (checked_sub_in_range min_int64 1).
  split; vm_compute; discriminate.
Defined.

Lemma decode_short vch : len vch <= 1 -> CScriptNum.decode vch = 0.
Proof.
  intros H. destruct vch as [|l [|b v]]; try reflexivity.
  unfold len in H. cbn [length] in H. lia.
Qed.

Lemma decode_payload_bound l value :
  value <> [] ->
  2 * Z.abs (CScriptNum.decode (l :: value)) < 256 ^ len value.
Proof.
  intros Hne. rewrite decode_cons by assumption.
  destruct (exists_last Hne) as (xs & t & ->).
  rewrite last_last, le_value_app, len_app.
  change (len [t]) with 1.
  replace (len xs + 1 - 1) with (len xs) by lia.
  pose proof (le_value_bound xs) as Hxs.
  pose proof (int_of_byte_range t) as Ht.
  pose proof (len_nonneg xs) as Hl.
  rewrite Z.pow_add_r by lia. change (256 ^ 1) with 256.
  set (P := 256 ^ len xs) in *.
  assert (HP : 0 < P) by (apply Z.pow_pos_nonneg; lia).
  destruct (Z.geb_spec (int_of_byte t) 128) as [Hge|Hlt].
  - pose proof (Z.mod_pos_bound (le_value xs + int_of_byte t * P) (128 * P)).
    lia.
  - assert (int_of_byte t * P <= 127 * P)
      by (apply Z.mul_le_mono_nonneg_r; lia).
    assert (0 <= int_of_byte t * P) by (apply Z.mul_nonneg_nonneg; lia).
    lia.
Qed.

(** [decode] reads the bytes after the first one as sign and magnitude:
    with [k] such bytes the result lies strictly between [-2^(8k-1)] and
    [2^(8k-1)], and with none it is 0. *)
Theorem decode_magnitude_bound :
  forall vch : bytes,
    if len vch <=? 1 then CScriptNum.decode vch = 0
    else Z.abs (CScriptNum.decode vch) < 2 ^ (8 * (len vch - 1) - 1).
Proof.
  intros vch. destruct (Z.leb_spec (len vch) 1) as [H|H].
  - now apply decode_short.
  - destruct vch as [|l value]; [unfold len in H; cbn in H; lia|].
    rewrite len_cons in *.
    replace (1 + len value - 1) with (len value) by lia.
    assert (Hne : value <> [])
      by (intros ->; change (len (@nil byte)) with 0 in H; lia).
    pose proof (decode_payload_bound l value Hne) as B.
    replace (8 * len value - 1) with (len value * 8 - 1) by lia.
    rewrite sign_bit_pow by lia.
    replace (len value) with (1 + (len value - 1)) in B at 1 by lia.
    rewrite Z.pow_add_r in B by lia. change (256 ^ 1) with 256 in B. lia.
Qed.

Lemma le_bytes_zero fuel : le_bytes fuel 0 = [].
Proof. destruct fuel; reflexivity. Qed.

Lemma le_bytes_last fuel : forall a,
  0 < a < 2 ^ Z.of_nat fuel ->
  int_of_byte (last (le_bytes fuel a) x00) <> 0.
Proof.
  induction fuel as [|fuel IH]; intros a Ha.
  - cbn in Ha. lia.
  - cbn [le_bytes]. destruct (Z.eqb_spec a 0); [lia|].
    destruct (Z.eq_dec (Z.shiftr a 8) 0) as [E|E].
    + rewrite E, le_bytes_zero. cbn [last].
      rewrite int_of_byte_of_int by (apply land_255_range; lia).
      pose proof (byte_split a). lia.
    + assert (B : 0 <= Z.shiftr a 8 < 2 ^ Z.of_nat fuel)
        by (apply shiftr8_bound; lia).
      assert (0 < Z.shiftr a 8) by lia.
      assert (NE : le_bytes fuel (Z.shiftr a 8) <> []).
      { destruct fuel as [|fuel'].
        - change (2 ^ Z.of_nat 0) with 1 in B. lia.
        - apply le_bytes_nonempty. lia. }
      specialize (IH (Z.shiftr a 8) ltac:(lia)).
      destruct (le_bytes fuel (Z.shiftr a 8)) as [|b l0]; [congruence|].
      exact IH.
Qed.

(** The payload [encode] builds is never longer than needed: its length
    [k] satisfies [256^(k-1) <= 2|n|]. *)
Lemma sign_payload_lower n bs :
  bs <> [] -> le_value bs = Z.abs n ->
  int_of_byte (last bs x00) <> 0 ->
  256 ^ (len (sign_payload (n <? 0) bs) - 1) <= 2 * Z.abs n.
Proof.
  intros Hne Hv Hlast.
  destruct (exists_last Hne) as (xs & t & ->).
  unfold sign_payload.
  rewrite last_last, removelast_last, byte_bit7 in *.
  rewrite le_value_app in Hv.
  pose proof (le_value_bound xs) as Hxs.
  pose proof (int_of_byte_range t) as Ht.
  pose proof (len_nonneg xs) as Hl.
  assert (HP : 0 < 256 ^ len xs) by (apply Z.pow_pos_nonneg; lia).
  destruct (Z.ltb_spec (int_of_byte t) 128) as [Hlt|Hge]; cbn [negb].
  - destruct (n <? 0); rewrite len_app;
      [change (len [byte_of_int (Z.lor (int_of_byte t) 128)]) with 1
      |change (len [t]) with 1];
      replace (len xs + 1 - 1) with (len xs) by lia; nia.
  - rewrite !len_app. change (len [t]) with 1.
    change (len [byte_of_int (if n <? 0 then 128 else 0)]) with 1.
    replace (len xs + 1 + 1 - 1) with (len xs + 1) by lia.
    rewrite Z.pow_add_r by lia. change (256 ^ 1) with 256. nia.
Qed.

(** Minimal encoding: when [encode n] returns a length byte [l] and a
    payload [r], [l] is the length of [r], and no byte string that [decode]
    maps to [n] has a shorter payload than [r]. *)
Theorem encode_is_minimal :
  forall (n : Z) (l : byte) (r vch : bytes),
    CScriptNum.encode n = Return (l :: r) ->
    CScriptNum.decode vch = n ->
    int_of_byte l = len r /\ len r <= len vch - 1.
Proof.
  intros n l r vch E D.
  destruct (Z.eq_dec n 0) as [->|Hn]; [discriminate E|].
  rewrite encode_unfold in E by assumption. cbv zeta in E.
  set (a := Z.abs n) in *.
  assert (Ha : 0 < a) by (unfold a; lia).
  set (bs := le_bytes (S (Z.to_nat (Z.log2 a))) a) in *.
  assert (Hbs : bs <> []) by (apply le_bytes_nonempty; lia).
  assert (Hv : le_value bs = a) by (apply le_bytes_value, log2_fuel; lia).
  assert (Hlast : int_of_byte (last bs x00) <> 0).
  { apply le_bytes_last. pose proof (log2_fuel a Ha). lia. }
  pose proof (sign_payload_lower n bs Hbs Hv Hlast) as Low.
  destruct (Z.leb_spec (len (sign_payload (n <? 0) bs)) 255) as [H255|];
    [|discriminate E].
  injection E as <- <-.
  pose proof (len_nonneg (sign_payload (n <? 0) bs)) as Hr.
  split; [apply int_of_byte_of_int; lia|].
  destruct (Z.leb_spec (len vch) 1) as [Hs|Hs].
  - rewrite decode_short in D by assumption. lia.
  - destruct vch as [|l' value]; [unfold len in Hs; cbn in Hs; lia|].
    rewrite len_cons in *.
    assert (Hne : value <> [])
      by (intros ->; change (len (@nil byte)) with 0 in Hs; lia).
    pose proof (decode_payload_bound l' value Hne) as Up.
    rewrite D in Up. fold a in Low.
    assert (256 ^ (len (sign_payload (n <? 0) bs) - 1) < 256 ^ len value)
      by (unfold a in *; lia).
    apply Z.pow_lt_mono_r_iff in H; lia.
Qed.

Lemma encode_is_minimal_witness :
  int_of_byte x02 = len [xff; x80]
  /\ len [xff; x80] <= len [x07; xff; x00; x80] - 1.
Proof.
  apply (encode_is_minimal (-255) x02 [xff; x80] [x07; xff; x00; x80]);
    reflexivity.
Defined.

(** Truthiness of an encoded number: whenever [encode n] returns, the
    result is true under [bool_of_stack_item] exactly when [n] is not 0
    (the length byte in front of a payload is itself non-zero). *)
Theorem encoded_number_truthiness :
  forall (n : Z) (v : bytes),
    CScriptNum.encode n = Return v ->
    bool_of_stack_item v = negb (n =? 0).
Proof.
  intros n v E.
  destruct (Z.eqb_spec n 0) as [->|Hn].
  - injection E as <-. reflexivity.
  - rewrite encode_unfold in E by assumption. cbv zeta in E.
    set (r := sign_payload _ _) in *.
    assert (Hr : 1 <= len r).
    { unfold r, sign_payload.
      assert (B : le_bytes (S (Z.to_nat (Z.log2 (Z.abs n)))) (Z.abs n) <> [])
        by (apply le_bytes_nonempty; lia).
      destruct (exists_last B) as (xs & t & ->).
      rewrite removelast_last. pose proof (len_nonneg xs).
      destruct (negb _); [|destruct (n <? 0)]; rewrite !len_app;
        pose proof (len_nonneg (xs ++ [t])); unfold len in *; cbn [length];
        rewrite ?length_app; cbn [length]; lia. }
    destruct (Z.leb_spec (len r) 255); [|discriminate E].
    injection E as <-.
    unfold bool_of_stack_item. cbn [bool_of_stack_item_loop].
    rewrite int_of_byte_of_int by lia. rewrite len_cons.
    destruct (Z.eqb_spec (len r) 0); [lia|]. cbn [negb].
    destruct (Z.eqb_spec 0 (1 + len r - 1)); [lia|]. reflexivity.
Qed.

Lemma encoded_number_truthiness_witness :
  bool_of_stack_item [x02; x80; x80] = negb (-128 =? 0).
Proof.
  apply (encoded_number_truthiness (-128) [x02; x80; x80]). reflexivity.
Defined.

(* ------------------------------------------------------------------ *)
(** ** Truthiness *)

Lemma int_of_byte_zero b : int_of_byte b = 0 <-> b = x00.
Proof.
  split; [intros H; apply int_of_byte_inj; rewrite H|intros ->]; reflexivity.
Qed.

Lemma bool_of_stack_item_loop_false v : forall n idx,
  n = idx + len v ->
  bool_of_stack_item_loop n idx v = false
  <-> Forall (eq x00) v
      \/ exists z, v = z ++ [x80] /\ Forall (eq x00) z.
Proof.
  induction v as [|c v IH]; intros n idx Hn; cbn [bool_of_stack_item_loop].
  - split; auto.
  - rewrite len_cons in Hn. pose proof (len_nonneg v) as Hl.
    destruct (Z.eqb_spec (int_of_byte c) 0) as [E|E]; cbn [negb].
    + apply int_of_byte_zero in E. subst c.
      rewrite (IH n (idx + 1)) by lia. split.
      * intros [H|(z & -> & Hz)].
        -- left. constructor; auto.
        -- right. exists (x00 :: z). split; [reflexivity|].
           constructor; auto.
      * intros [H|(z & Hv & Hz)].
        -- left. now inversion H.
        -- right. destruct z as [|c z]; [discriminate Hv|].
           injection Hv as _ Hv. exists z. split; [exact Hv|].
           now inversion Hz.
    + assert (Hc : c <> x00) by (intros ->; apply E; reflexivity).
      destruct (Z.eqb_spec idx (n - 1)) as [Hi|Hi]; cbn [andb].
      * assert (v = []).
        { destruct v as [|c' v']; [reflexivity|].
          rewrite len_cons in *. pose proof (len_nonneg v'). lia. }
        subst v.
        destruct (Z.eqb_spec (int_of_byte c) 128) as [E8|E8].
        -- assert (c = x80) by (apply int_of_byte_inj; rewrite E8;
                                 reflexivity).
           subst c. split; auto. intros _. right. exists []. auto.
        -- split; [discriminate|].
           intros [H|(z & Hv & Hz)].
           ++ inversion H; congruence.
           ++ destruct z as [|c' z].
              ** injection Hv as ->. exfalso. apply E8. reflexivity.
              ** injection Hv as _ Hv. destruct z; discriminate Hv.
      * split; [discriminate|].
        intros [H|(z & Hv & Hz)].
        -- inversion H; congruence.
        -- destruct z as [|c' z].
           ++ injection Hv as _ Hv. subst v.
              change (len (@nil byte)) with 0 in *. lia.
           ++ injection Hv as -> _. inversion Hz; congruence.
Qed.

(** The canonical truthiness rule: a stack item is false exactly when all
    its bytes are zero, or all are zero but a final 0x80 (negative zero);
    any other item is true. *)
Theorem bool_of_stack_item_false_iff :
  forall v : bytes,
    bool_of_stack_item v = false
    <-> Forall (eq x00) v
        \/ exists z : bytes, v = z ++ [x80] /\ Forall (eq x00) z.
Proof.
  intros v. unfold bool_of_stack_item.
  apply bool_of_stack_item_loop_false. lia.
Qed.

(* ------------------------------------------------------------------ *)
(** ** The tracker as a list of conditions *)

Lemma first_false_range v k : first_false v = Some k -> 0 <= k < len v.
Proof.
  revert k. induction v as [|b v IH]; intros k; cbn [first_false].
  - discriminate.
  - rewrite len_cons. pose proof (len_nonneg v).
    destruct (first_false v) as [j|].
    + intros [= <-]. specialize (IH j eq_refl). lia.
    + destruct b; [discriminate|]. intros [= <-]. lia.
Qed.

Lemma first_false_none v : first_false v = None <-> forallb id v = true.
Proof.
  induction v as [|b v IH]; cbn [first_false forallb]; [tauto|].
  destruct (first_false v) as [j|].
  - split; [discriminate|]. intros H. apply andb_true_iff in H.
    destruct IH as [_ IH]. now specialize (IH (proj2 H)).
  - destruct IH as [IH _]. rewrite (IH eq_refl), andb_true_r.
    unfold id. destruct b; split; congruence.
Qed.

Section TrackerRefinement.
Import ConditionStack.
Variable NO_FALSE : Z.

Lemma represents_all_true v cs :
  len v <= NO_FALSE -> represents NO_FALSE v cs ->
  all_true NO_FALSE cs = forallb id v.
Proof.
  intros Hl [_ Hm]. unfold all_true. rewrite Hm.
  destruct (first_false v) as [k|] eqn:F.
  - apply first_false_range in F as R.
    destruct (Z.eqb_spec k NO_FALSE); [lia|].
    destruct (forallb id v) eqn:A; [|reflexivity].
    apply first_false_none in A. congruence.
  - rewrite Z.eqb_refl. symmetry. now apply first_false_none.
Qed.

Lemma represents_push v cs b :
  len v < NO_FALSE -> represents NO_FALSE v cs ->
  represents NO_FALSE (b :: v) (push_back NO_FALSE cs b).
Proof.
  intros Hl [Hs Hm]. unfold represents, push_back.
  cbn [stack_size first_false_position first_false].
  rewrite len_cons, Hs, Hm. split; [lia|].
  destruct (first_false v) as [k|] eqn:F.
  - apply first_false_range in F.
    destruct (Z.eqb_spec k NO_FALSE); [lia|reflexivity].
  - rewrite Z.eqb_refl. destruct b; reflexivity.
Qed.

Lemma represents_pop v cs b :
  len (b :: v) <= NO_FALSE -> represents NO_FALSE (b :: v) cs ->
  exists cs', pop_back NO_FALSE cs = Return cs' /\ represents NO_FALSE v cs'.
Proof.
  intros Hl [Hs Hm]. rewrite len_cons in *. pose proof (len_nonneg v).
  unfold pop_back. destruct (Z.gtb_spec (stack_size cs) 0); [|lia].
  cbn [negb]. eexists. split; [reflexivity|].
  unfold represents. cbn [stack_size first_false_position].
  split; [lia|]. rewrite Hm, Hs. cbn [first_false].
  replace (1 + len v - 1) with (len v) by lia.
  destruct (first_false v) as [k|] eqn:F.
  - apply first_false_range in F.
    destruct (Z.eqb_spec k (len v)); [lia|reflexivity].
  - destruct b.
    + destruct (NO_FALSE =? len v); reflexivity.
    + rewrite Z.eqb_refl. reflexivity.
Qed.

Lemma represents_toggle v cs b :
  len (b :: v) <= NO_FALSE -> represents NO_FALSE (b :: v) cs ->
  exists cs',
    toggle_top NO_FALSE cs = Return cs'
    /\ represents NO_FALSE (negb b :: v) cs'.
Proof.
  intros Hl [Hs Hm]. rewrite len_cons in *. pose proof (len_nonneg v).
  unfold toggle_top. destruct (Z.gtb_spec (stack_size cs) 0); [|lia].
  cbn [negb]. rewrite Hm, Hs. cbn [first_false].
  replace (1 + len v - 1) with (len v) by lia.
  destruct (first_false v) as [k|] eqn:F.
  - apply first_false_range in F as R.
    destruct (Z.eqb_spec k NO_FALSE); [lia|].
    destruct (Z.eqb_spec k (len v)); [lia|].
    exists cs. split; [reflexivity|].
    unfold represents. cbn [first_false] in *. rewrite F in *.
    rewrite len_cons. split; [lia|exact Hm].
  - destruct b; cbn [negb].
    + rewrite Z.eqb_refl. eexists. split; [reflexivity|].
      unfold represents. cbn [stack_size first_false_position first_false].
      rewrite F, len_cons. split; lia.
    + destruct (Z.eqb_spec (len v) NO_FALSE); [lia|].
      rewrite Z.eqb_refl. eexists. split; [reflexivity|].
      unfold represents. cbn [stack_size first_false_position first_false].
      rewrite F, len_cons. split; [lia|reflexivity].
Qed.

Lemma cs_run_refines ops : forall v cs,
  len v + len ops <= NO_FALSE -> represents NO_FALSE v cs ->
  match vec_run v ops with
  | Some v' =>
      exists cs',
        cs_run NO_FALSE cs ops = Return cs'
        /\ represents NO_FALSE v' cs' /\ len v' <= NO_FALSE
  | None => cs_run NO_FALSE cs ops = Raise ConditionStackError
  end.
Proof.
  induction ops as [|o ops IH]; intros v cs Hl R;
    cbn [vec_run cs_run].
  - exists cs. change (len (@nil cs_op)) with 0 in Hl.
    split; [reflexivity|]. split; [exact R|lia].
  - rewrite len_cons in Hl. pose proof (len_nonneg ops) as Ho.
    pose proof (len_nonneg v) as Hv.
    destruct o as [b| |]; cbn [vec_step cs_step bind].
    + apply IH; [rewrite len_cons; lia|].
      apply represents_push; [lia|exact R].
    + destruct v as [|b v].
      * destruct R as [Hs _]. change (len (@nil bool)) with 0 in Hs.
        unfold ConditionStack.pop_back. rewrite Hs. reflexivity.
      * destruct (represents_pop v cs b) as (cs' & E & R');
          [lia|exact R|].
        rewrite E. cbn [bind]. apply IH; [rewrite len_cons in Hl; lia|].
        exact R'.
    + destruct v as [|b v].
      * destruct R as [Hs _]. change (len (@nil bool)) with 0 in Hs.
        unfold ConditionStack.toggle_top. rewrite Hs. reflexivity.
      * destruct (represents_toggle v cs b) as (cs' & E & R');
          [lia|exact R|].
        rewrite E. cbn [bind]. apply IH; [rewrite len_cons in *; lia|].
        exact R'.
Qed.
End TrackerRefinement.

(** The tracker refines the plain stack of conditions.  For any sequence
    of pushes, pops and toggles that is no longer than the sentinel value,
    run from the empty tracker: the tracker raises [ConditionStackError]
    exactly when the list model underflows; otherwise its depth is the
    length of the list, [empty] tells whether the list is empty, and
    [all_true] is the conjunction of the conditions still on the list. *)
Theorem condition_stack_refines_list :
  forall (NO_FALSE : Z) (ops : list cs_op),
    len ops <= NO_FALSE ->
    match vec_run [] ops with
    | Some v =>
        exists cs : ConditionStack.t,
          cs_run NO_FALSE (ConditionStack.init NO_FALSE) ops = Return cs
          /\ ConditionStack.stack_size cs = len v
          /\ ConditionStack.empty cs = (len v =? 0)
          /\ ConditionStack.all_true NO_FALSE cs = forallb id v
    | None =>
        cs_run NO_FALSE (ConditionStack.init NO_FALSE) ops
        = Raise ConditionStackError
    end.
Proof.
  intros NO_FALSE ops Hl.
  pose proof (cs_run_refines NO_FALSE ops [] (ConditionStack.init NO_FALSE))
    as R.
  destruct (vec_run [] ops) as [v|].
  - destruct R as (cs & E & Rep & Hv);
      [exact Hl|split; reflexivity|].
    exists cs. split; [exact E|]. destruct Rep as [Hs Hm].
    split; [exact Hs|]. split.
    + unfold ConditionStack.empty. now rewrite Hs.
    + apply represents_all_true; [exact Hv|split; assumption].
  - apply R; [exact Hl|split; reflexivity].
Qed.

Lemma condition_stack_refines_list_witness :
  let ops := [CsPush true; CsPush false; CsPush true; CsToggle; CsPop;
              CsToggle] in
  match vec_run [] ops with
  | Some v =>
      exists cs : ConditionStack.t,
        cs_run max_uint32 (ConditionStack.init max_uint32) ops = Return cs
        /\ ConditionStack.stack_size cs = len v
        /\ ConditionStack.empty cs = (len v =? 0)
        /\ ConditionStack.all_true max_uint32 cs = forallb id v
  | None =>
      cs_run max_uint32 (ConditionStack.init max_uint32) ops
      = Raise ConditionStackError
  end.
Proof.
  apply (condition_stack_refines_list max_uint32
           [CsPush true; CsPush false; CsPush true; CsToggle; CsPop;
            CsToggle]).
  vm_compute. discriminate.
Defined.

(* ------------------------------------------------------------------ *)
(** ** The handler and the tracker *)

Lemma reachable_wf NO_FALSE s :
  ConditionStack.reachable NO_FALSE s ->
  0 <= ConditionStack.stack_size s
  /\ (ConditionStack.first_false_position s = NO_FALSE
      \/ 0 <= ConditionStack.first_false_position s
         < ConditionStack.stack_size s).
Proof.
  induction 1 as [|s b R IH|s s' R IH E|s s' R IH E].
  - cbn. lia.
  - unfold ConditionStack.push_back. cbn.
    destruct (Z.eqb_spec (ConditionStack.first_false_position s) NO_FALSE);
      destruct b; cbn; lia.
  - unfold ConditionStack.pop_back in E.
    destruct (Z.gtb_spec (ConditionStack.stack_size s) 0); [|discriminate E].
    injection E as <-. cbn.
    destruct (Z.eqb_spec (ConditionStack.first_false_position s)
                (ConditionStack.stack_size s - 1)); lia.
  - unfold ConditionStack.toggle_top in E.
    destruct (Z.gtb_spec (ConditionStack.stack_size s) 0); [|discriminate E].
    cbn [negb] in E.
    destruct (Z.eqb_spec (ConditionStack.first_false_position s) NO_FALSE).
    + injection E as <-. cbn. lia.
    + destruct (Z.eqb_spec (ConditionStack.first_false_position s)
                  (ConditionStack.stack_size s - 1)).
      * injection E as <-. cbn. lia.
      * injection E as <-. lia.
Qed.

Lemma encode_raises n e : CScriptNum.encode n = Raise e -> e = ValueError.
Proof.
  unfold CScriptNum.encode. destruct (n =? 0); [discriminate|].
  cbv zeta. destruct (len _ <=? 255); [discriminate|]. now intros [= <-].
Qed.

Lemma guarded_tracker_op (f : ConditionStack.t -> exc ConditionStack.t)
    stack hb :
  (f = ConditionStack.pop_back max_uint32
   \/ f = ConditionStack.toggle_top max_uint32) ->
  ConditionStack.empty hb = false ->
  tracker_step hb (hb' <- f hb ;; Return (true, stack, hb')).
Proof.
  intros Hf He. unfold ConditionStack.empty in He.
  apply Z.eqb_neq in He.
  destruct (f hb) as [hb'|e] eqn:E; cbn [bind tracker_step].
  - destruct Hf as [-> | ->]; auto.
  - destruct Hf as [-> | ->];
      unfold ConditionStack.pop_back, ConditionStack.toggle_top in E;
      destruct (Z.gtb_spec (ConditionStack.stack_size hb) 0);
      cbn [negb] in E.
    + discriminate E.
    + injection E as <-. lia.
    + destruct (_ =? _); [discriminate E|].
      destruct (_ =? _); discriminate E.
    + injection E as <-. lia.
Qed.

(** What [handle_opcode] does to the tracker: nothing, one [push_back], or
    one guarded [pop_back] or [toggle_top]. *)
Lemma handle_opcode_tracker op se stack hb :
  tracker_step hb (handle_opcode op se stack hb).
Proof.
  unfold handle_opcode. cbv zeta beta.
  destruct ((op == OP_IF) || (op == OP_NOTIF)).
  { unfold if_arm. repeat first [tracker_done | tracker_head]. }
  destruct (op == OP_ELSE).
  { destruct (ConditionStack.empty hb) eqn:E; [tracker_done|].
    apply guarded_tracker_op; auto. }
  destruct (op == OP_ENDIF).
  { destruct (ConditionStack.empty hb) eqn:E; [tracker_done|].
    apply guarded_tracker_op; auto. }
  destruct (negb se); [tracker_done|].
  destruct (op == OP_SHA256);
    [repeat first [tracker_done | tracker_head]|].
  destruct (op == OP_1SUB).
  { unfold sub1_arm. destruct stack as [|top stack']; [tracker_done|].
    destruct (CScriptNum.encode (CScriptNum.decode top - 1)) eqn:E;
      cbn [bind]; [tracker_done|].
    apply encode_raises in E. subst. exact I. }
  destruct (op == OP_WITHIN).
  { unfold within_arm. repeat first [tracker_done | tracker_head]. }
  repeat first [tracker_done | tracker_head].
Qed.

Lemma handle_tracker op stack hb : tracker_step hb (handle op stack hb).
Proof.
  unfold handle. cbv zeta.
  destruct op as [d|n|o].
  - cbn [bind]. tracker_done.
  - destruct (ConditionStack.all_true max_uint32 hb); cbn [bind];
      [|tracker_done].
    destruct (CScriptNum.encode n) eqn:E; cbn [bind]; [tracker_done|].
    apply encode_raises in E. subst. exact I.
  - destruct (ConditionStack.all_true max_uint32 hb); cbn [bind].
    + destruct (CScriptNum.encode (int_of_byte o)) eqn:E; cbn [bind].
      * apply handle_opcode_tracker.
      * apply encode_raises in E. subst. exact I.
    + apply handle_opcode_tracker.
Qed.

Lemma handle_reachable op stack hb :
  ConditionStack.reachable max_uint32 hb ->
  match handle op stack hb with
  | Return (_, _, hb') => ConditionStack.reachable max_uint32 hb'
  | Raise e => e = ValueError
  end.
Proof.
  intros R.
  pose proof (handle_tracker op stack hb) as T.
  pose proof (reachable_wf max_uint32 hb R) as [Hs _].
  destruct (handle op stack hb) as [[[ok st] hb']|e]; cbn [tracker_step] in T.
  - destruct T as [->|[[b ->]|[E|E]]].
    + exact R.
    + now apply ConditionStack.reach_push.
    + eapply ConditionStack.reach_pop; eassumption.
    + eapply ConditionStack.reach_toggle; eassumption.
  - destruct e; try contradiction; [reflexivity|lia].
Qed.

(** From a reachable tracker state the loop of [interpret] never enters
    its [except ConditionStackError] branch: it computes what the loop
    without the [try] computes. *)
Lemma interpret_loop_never_catches ops : forall stack hb,
  ConditionStack.reachable max_uint32 hb ->
  interpret_loop ops stack hb = interpret_loop_uncaught ops stack hb.
Proof.
  induction ops as [|op rest IH|e]; intros stack hb R;
    cbn [interpret_loop interpret_loop_uncaught]; try reflexivity.
  pose proof (handle_reachable op stack hb R) as H.
  destruct (handle op stack hb) as [[[ok st] hb']|e].
  - destruct ok; cbn [negb]; [now apply IH|reflexivity].
  - subst e. reflexivity.
Qed.

(** Whatever the item and the stack, [handle] started on a tracker state
    that is reachable from the initial one either returns with a reachable
    tracker state, or raises [ValueError]: it never raises
    [ConditionStackError], because [ELSE] and [ENDIF] test [empty()] before
    they touch the tracker.  So the [except ConditionStackError] branch of
    [interpret] is never taken: from any reachable tracker state, and in
    particular for every script, [interpret] computes exactly what it
    computes with the [try]/[except] removed. *)
Theorem handle_keeps_tracker_reachable :
  forall (op : item) (stack : exec_stack) (hb : ConditionStack.t),
    ConditionStack.reachable max_uint32 hb ->
    match handle op stack hb with
    | Return (_, _, hb') => ConditionStack.reachable max_uint32 hb'
    | Raise e => e = ValueError
    end
    /\ (forall ops : stream item,
          interpret_loop ops stack hb = interpret_loop_uncaught ops stack hb)
    /\ (forall s : bytes, interpret s = interpret_uncaught s).
Proof.
  intros op stack hb R. split; [now apply handle_reachable|]. split.
  - intros ops. now apply interpret_loop_never_catches.
  - intros s. apply interpret_loop_never_catches. constructor.
Qed.

Lemma handle_keeps_tracker_reachable_witness :
  let hb := ConditionStack.push_back max_uint32
              (ConditionStack.init max_uint32) true in
  match handle (IOp OP_ELSE) [[x01]] hb with
  | Return (_, _, hb') => ConditionStack.reachable max_uint32 hb'
  | Raise e => e = ValueError
  end
  /\ (forall ops : stream item,
        interpret_loop ops [[x01]] hb = interpret_loop_uncaught ops [[x01]] hb)
  /\ (forall s : bytes, interpret s = interpret_uncaught s).
Proof.
  apply (handle_keeps_tracker_reachable (IOp OP_ELSE) [[x01]]).
  repeat constructor.
Defined.

(** Inside an inactive branch (a reachable tracker state whose [all_true]
    is false) [handle] returns [True], raises nothing and leaves the stack
    as it is, for every item: pushes are suppressed, and opcodes outside
    the supported subset are skipped rather than rejected. *)
Theorem handle_inactive_skips :
  forall (op : item) (stack : exec_stack) (hb : ConditionStack.t),
    ConditionStack.reachable max_uint32 hb ->
    ConditionStack.all_true max_uint32 hb = false ->
    exists hb' : ConditionStack.t, handle op stack hb = Return (true, stack, hb').
Proof.
  intros op stack hb R A.
  pose proof (reachable_wf max_uint32 hb R) as [Hs Hm].
  unfold ConditionStack.all_true in A. apply Z.eqb_neq in A.
  assert (Hpos : 0 < ConditionStack.stack_size hb) by lia.
  unfold handle. cbv zeta. unfold ConditionStack.all_true.
  destruct (Z.eqb_spec (ConditionStack.first_false_position hb) max_uint32);
    [contradiction|].
  destruct op as [d|k|o]; cbn [bind]; try (eexists; reflexivity).
  unfold handle_opcode. cbv zeta beta.
  destruct ((o == OP_IF) || (o == OP_NOTIF));
    [unfold if_arm; eexists; reflexivity|].
  unfold ConditionStack.empty.
  destruct (Z.eqb_spec (ConditionStack.stack_size hb) 0); [lia|].
  destruct (o == OP_ELSE).
  { unfold ConditionStack.toggle_top.
    destruct (Z.gtb_spec (ConditionStack.stack_size hb) 0); [|lia].
    cbn [negb].
    destruct (Z.eqb_spec (ConditionStack.first_false_position hb) max_uint32);
      [contradiction|].
    destruct (_ =? _); eexists; reflexivity. }
  destruct (o == OP_ENDIF).
  { unfold ConditionStack.pop_back.
    destruct (Z.gtb_spec (ConditionStack.stack_size hb) 0); [|lia].
    eexists; reflexivity. }
  eexists; reflexivity.
Qed.

Lemma handle_inactive_skips_witness :
  exists hb' : ConditionStack.t,
    handle (IOp xff) [[x01]]
      (ConditionStack.push_back max_uint32
         (ConditionStack.init max_uint32) false)
    = Return (true, [[x01]], hb').
Proof.
  apply (handle_inactive_skips (IOp xff) [[x01]]).
  - repeat constructor.
  - reflexivity.
Defined.

(** With execution active, an opcode that has no arm in [handle] makes it
    raise [ValueError], whatever the stack holds. *)
Theorem handle_unsupported_raises :
  forall (op : byte) (stack : exec_stack) (size : Z),
    supported op = false ->
    handle (IOp op) stack (active size) = Raise ValueError.
Proof.
  intros op stack size H.
  destruct op; vm_compute in H; try discriminate H; reflexivity.
Qed.

Lemma handle_unsupported_raises_witness :
  handle (IOp x61) [[x01]; []] (active 0) = Raise ValueError.
Proof.
  apply (handle_unsupported_raises x61 [[x01]; []] 0). reflexivity.
Defined.

(* ------------------------------------------------------------------ *)
(** ** What the two iterations yield *)

Lemma classify_nodata self i :
  classify self i = NoData -> 78 < int_of_byte (getitem self i).
Proof.
  unfold classify.
  destruct (Z.gtb_spec (int_of_byte (getitem self i)) 78); [lia|].
  destruct (len self <? _); [discriminate|].
  destruct (len self <? _); discriminate.
Qed.

Lemma raw_step_tuple self i it i' :
  0 <= i < len self ->
  CScript.raw_step self i = Return (it, i') ->
  tuple_ok self i it /\ i < i' <= len self.
Proof.
  intros Hi S. pose proof S as S'.
  apply raw_step_return in S; [|exact Hi].
  destruct S as (C & _ & Hi' & Hidx & Hop & _ & _ & Hd).
  split; [|exact Hi'].
  destruct it as [[op data] idx]. cbn [fst snd] in *. subst idx op.
  unfold tuple_ok. repeat split; try lia.
  destruct data as [d|].
  - split; [|exact Hd].
    rewrite raw_step_spec in S' by exact Hi. cbv zeta in S'.
    destruct (classify self i) eqn:K; try discriminate S'.
    unfold classify in K.
    destruct (Z.gtb_spec (int_of_byte (getitem self i)) 78);
      [discriminate K|lia].
  - now apply classify_nodata.
Qed.

Lemma raw_iter_loop_walk self : forall fuel i,
  0 <= i -> walk_ok self i (yielded (CScript.raw_iter_loop fuel self i)).
Proof.
  induction fuel as [|fuel IH]; intros i Hi; cbn; [constructor|].
  destruct (Z.ltb_spec i (len self)); [|constructor].
  destruct (CScript.raw_step self i) as [[it i']|e] eqn:S; [|constructor].
  apply raw_step_tuple in S; [|lia]. destruct S as [T Hi'].
  cbn. econstructor; [exact T|exact Hi'|]. apply IH. lia.
Qed.

Lemma walk_ok_offsets self : forall l i,
  walk_ok self i l ->
  Forall (fun it => i <= snd it < len self) l
  /\ StronglySorted Z.lt (map snd l)
  /\ (i <= len self -> len l <= len self - i).
Proof.
  induction l as [|it l IH]; intros i W; inversion W as [|? i' ? ? T Hi' W'];
    subst.
  - repeat split; try constructor. change (len (@nil instr)) with 0. lia.
  - destruct (IH _ W') as (F & S & L).
    destruct it as [[op data] idx]. unfold tuple_ok in T.
    destruct T as (-> & Hi & _). cbn [map snd].
    split; [|split].
    + constructor; [cbn; lia|].
      eapply Forall_impl; [|exact F]. cbn. intros; lia.
    + constructor; [exact S|].
      apply Forall_map. eapply Forall_impl; [|exact F]. cbn. intros; lia.
    + intros _. rewrite len_cons. lia.
Qed.

Lemma walk_ok_tuples self : forall l i,
  walk_ok self i l ->
  Forall (fun it : instr =>
            let '(op, data, sop_idx) := it in
            0 <= sop_idx < len self
            /\ op = getitem self sop_idx
            /\ (data = None <-> 0x4E < int_of_byte op)) l.
Proof.
  induction l as [|it l IH]; intros i W; inversion W as [|? i' ? ? T Hi' W'];
    subst; constructor; eauto.
  destruct it as [[op data] idx]. unfold tuple_ok in T.
  destruct T as (-> & Hi & -> & Hd).
  split; [exact Hi|]. split; [reflexivity|].
  destruct data; [destruct Hd; split; [discriminate|lia]|tauto].
Qed.

(** Raw iteration visits strictly increasing offsets inside the buffer,
    starting at 0 when it yields anything; the opcode of every tuple is the
    byte at its offset; a tuple carries data exactly when that byte is at
    most [OP_PUSHDATA4]; and there are at most [len(script)] tuples. *)
Theorem raw_iter_offsets :
  forall self : bytes,
    let l := yielded (CScript.raw_iter self) in
    StronglySorted Z.lt (map snd l)
    /\ Forall (fun it : instr =>
                let '(op, data, sop_idx) := it in
                0 <= sop_idx < len self
                /\ op = getitem self sop_idx
                /\ (data = None <-> 0x4E < int_of_byte op)) l
    /\ hd 0 (map snd l) = 0
    /\ len l <= len self.
Proof.
  intros self l.
  assert (W : walk_ok self 0 l) by (apply raw_iter_loop_walk; lia).
  pose proof (walk_ok_offsets self l 0 W) as (F & S & L).
  split; [exact S|]. split; [|split].
  - eapply walk_ok_tuples, W.
  - inversion W as [|? i' it ? T Hi' W']; subst; [reflexivity|].
    destruct it as [[op data] idx]. unfold tuple_ok in T.
    cbn. tauto.
  - pose proof (len_nonneg self). lia.
Qed.

Lemma cooked_items_ok raw :
  Forall (fun it : instr =>
            let '(op, data, _) := it in
            data = None -> 0x4E < int_of_byte op) (yielded raw) ->
  Forall item_ok (yielded (CScript.cooked raw)).
Proof.
  induction raw as [|[[op data] idx] rest IH|e]; cbn [yielded CScript.cooked];
    intros F; try constructor.
  inversion F as [|? ? Hop F']; subst.
  destruct data as [d|]; cbn [yielded].
  - constructor; [exact I|auto].
  - specialize (Hop eq_refl).
    destruct (CScriptOp.is_small_int op) eqn:S.
    + rewrite decode_op_n_small by exact S. cbn [yielded].
      constructor; [|auto]. cbn [item_ok].
      unfold CScriptOp.is_small_int in S.
      destruct (Z.eqb_spec (int_of_byte op) 0); [lia|].
      rewrite orb_false_r in S. apply andb_true_iff in S.
      destruct S as [S1 S2]. apply Z.leb_le in S1, S2. lia.
    + cbn [yielded]. constructor; [|auto]. cbn [item_ok]. auto.
Qed.

(** Cooked iteration yields push data, integers 1..16 (never 0: the byte
    0x00 is read as a push of no bytes) and opcodes above [OP_PUSHDATA4]
    that are not small-integer opcodes. *)
Theorem iter_items :
  forall self : bytes, Forall item_ok (yielded (CScript.iter self)).
Proof.
  intros self. unfold CScript.iter. apply cooked_items_ok.
  assert (W : walk_ok self 0 (yielded (CScript.raw_iter self)))
    by (apply raw_iter_loop_walk; lia).
  eapply Forall_impl; [|eapply walk_ok_tuples, W].
  intros [[op data] idx] (_ & _ & H) E. now apply H.
Qed.

(* ------------------------------------------------------------------ *)
(** ** Concatenation *)

Lemma getitem_app_l s t i :
  0 <= i < len s -> getitem (s ++ t) i = getitem s i.
Proof.
  unfold getitem, len. intros H. apply app_nth1. lia.
Qed.

Lemma slice_app_l s t a b :
  0 <= a -> b <= len s -> slice (s ++ t) a b = slice s a b.
Proof.
  unfold slice, len. intros Ha Hb.
  destruct (Z.le_gt_cases b a) as [Hle|Hgt].
  - replace (Z.to_nat (b - a)) with 0%nat by lia. reflexivity.
  - rewrite skipn_app.
    replace (Z.to_nat a - length s)%nat with 0%nat by lia.
    cbn [skipn]. rewrite firstn_app, length_skipn.
    replace (Z.to_nat (b - a) - (length s - Z.to_nat a))%nat with 0%nat
      by lia.
    cbn [firstn]. apply app_nil_r.
Qed.

Lemma raw_step_app_l s t i x :
  0 <= i < len s ->
  CScript.raw_step s i = Return x -> CScript.raw_step (s ++ t) i = Return x.
Proof.
  intros Hi S.
  assert (Hi2 : 0 <= i < len (s ++ t))
    by (rewrite len_app; pose proof (len_nonneg t); lia).
  pose proof (getitem_app_l s t i Hi) as G.
  pose proof (hdr_len_nonneg (getitem s i)) as Hh.
  pose proof (declared_size_nonneg s i) as Hd.
  pose proof (len_nonneg t) as Ht.
  rewrite raw_step_spec in S by exact Hi.
  rewrite raw_step_spec by exact Hi2. cbv zeta in *.
  unfold classify, extent, declared_size in *. rewrite G.
  destruct (Z.gtb_spec (int_of_byte (getitem s i)) 78); [exact S|].
  destruct (Z.ltb_spec (len s) (i + 1 + hdr_len (getitem s i)));
    [discriminate S|].
  rewrite (slice_app_l s t (i + 1)) by lia.
  set (ds := if int_of_byte (getitem s i) <? 76
             then int_of_byte (getitem s i)
             else le_value (slice s (i + 1) (i + 1 + hdr_len (getitem s i))))
    in *.
  destruct (Z.ltb_spec (len s) (i + 1 + hdr_len (getitem s i) + ds));
    [discriminate S|].
  rewrite len_app.
  destruct (Z.ltb_spec (len s + len t) (i + 1 + hdr_len (getitem s i)));
    [lia|].
  destruct (Z.ltb_spec (len s + len t)
              (i + 1 + hdr_len (getitem s i) + ds)); [lia|].
  rewrite slice_app_l by lia. exact S.
Qed.

Lemma declared_size_app_r s t j :
  0 <= j -> declared_size (s ++ t) (len s + j) = declared_size t j.
Proof.
  intros Hj. unfold declared_size. cbv zeta.
  rewrite getitem_app_r by lia.
  destruct (int_of_byte (getitem t j) <? 76); [reflexivity|].
  replace (len s + j + 1) with (len s + (j + 1)) by lia.
  replace (len s + (j + 1) + hdr_len (getitem t j))
    with (len s + (j + 1 + hdr_len (getitem t j))) by lia.
  rewrite slice_app_r by lia. reflexivity.
Qed.

Lemma raw_step_app_r s t j :
  0 <= j < len t ->
  CScript.raw_step (s ++ t) (len s + j) =
    match CScript.raw_step t j with
    | Return (it, j') => Return (shift (len s) it, len s + j')
    | Raise e => Raise e
    end.
Proof.
  intros Hj. pose proof (len_nonneg s) as Hs.
  rewrite raw_step_spec by (rewrite len_app; lia).
  rewrite (raw_step_spec t j) by exact Hj. cbv zeta.
  unfold classify, extent.
  rewrite getitem_app_r, declared_size_app_r, len_app by lia.
  set (op := getitem t j). set (ds := declared_size t j).
  destruct (Z.gtb_spec (int_of_byte op) 78).
  { cbn [shift]. replace (len s + (j + 1)) with (len s + j + 1) by lia.
    reflexivity. }
  destruct (Z.ltb_spec (len t) (j + 1 + hdr_len op));
    destruct (Z.ltb_spec (len s + len t) (len s + j + 1 + hdr_len op));
    try lia; [reflexivity|].
  destruct (Z.ltb_spec (len t) (j + 1 + hdr_len op + ds));
    destruct (Z.ltb_spec (len s + len t) (len s + j + 1 + hdr_len op + ds));
    try lia.
  - replace (len s + j + 1 + hdr_len op)
      with (len s + (j + 1 + hdr_len op)) by lia.
    rewrite slice_from_app_r by (pose proof (hdr_len_nonneg op); lia).
    reflexivity.
  - cbn [shift].
    replace (len s + j + 1 + hdr_len op)
      with (len s + (j + 1 + hdr_len op)) by lia.
    replace (len s + j + (1 + hdr_len op + ds))
      with (len s + (j + (1 + hdr_len op + ds))) by lia.
    rewrite slice_app_r by (pose proof (hdr_len_nonneg op); lia).
    reflexivity.
Qed.

Lemma raw_iter_from_app_r s t : forall (fuel : nat) j,
  0 <= j -> len t - j <= Z.of_nat fuel ->
  raw_iter_from (s ++ t) (len s + j) = smap (shift (len s)) (raw_iter_from t j).
Proof.
  pose proof (len_nonneg s) as Hs.
  induction fuel as [|fuel IH]; intros j Hj Hf;
    rewrite raw_iter_from_unfold by lia;
    rewrite (raw_iter_from_unfold t j) by lia; rewrite len_app;
    destruct (Z.ltb_spec j (len t));
    destruct (Z.ltb_spec (len s + j) (len s + len t)); try lia;
    try reflexivity.
  rewrite raw_step_app_r by lia.
  destruct (CScript.raw_step t j) as [[it j']|e] eqn:S; [|reflexivity].
  apply raw_step_return in S; [|lia].
  cbn [smap]. f_equal. apply IH; lia.
Qed.

Lemma raw_iter_from_app_l s t : forall (fuel : nat) i,
  0 <= i <= len s -> len s - i <= Z.of_nat fuel ->
  outcome (raw_iter_from s i) = None ->
  raw_iter_from (s ++ t) i
  = sapp (raw_iter_from s i) (raw_iter_from (s ++ t) (len s)).
Proof.
  pose proof (len_nonneg t) as Ht.
  induction fuel as [|fuel IH]; intros i Hi Hf;
    rewrite (raw_iter_from_unfold s i) by lia;
    destruct (Z.ltb_spec i (len s)); try lia; intros Hout;
    try (replace i with (len s) by lia; reflexivity).
  rewrite raw_iter_from_unfold by lia. rewrite len_app.
  destruct (Z.ltb_spec i (len s + len t)); [|lia].
  destruct (CScript.raw_step s i) as [[it i']|e] eqn:S;
    [|discriminate Hout].
  rewrite (raw_step_app_l s t i _ ltac:(lia) S).
  apply raw_step_return in S; [|lia].
  cbn [sapp outcome] in *. f_equal. apply IH; [lia|lia|exact Hout].
Qed.

Lemma cooked_sapp a b :
  CScript.cooked (sapp a b) = sapp (CScript.cooked a) (CScript.cooked b).
Proof.
  induction a as [|[[op data] idx] rest IH|e]; cbn [sapp CScript.cooked];
    auto.
  destruct data as [d|]; cbn [sapp]; [now rewrite IH|].
  destruct (CScriptOp.is_small_int op) eqn:S; cbn [sapp];
    [|now rewrite IH].
  rewrite decode_op_n_small by exact S. cbn [sapp]. now rewrite IH.
Qed.

Lemma cooked_shift k raw :
  CScript.cooked (smap (shift k) raw) = CScript.cooked raw.
Proof.
  induction raw as [|[[op data] idx] rest IH|e]; cbn [smap shift
                                                        CScript.cooked];
    auto.
  now rewrite IH.
Qed.

Lemma raw_iter_app_eq s t :
  outcome (CScript.raw_iter s) = None ->
  CScript.raw_iter (s ++ t)
  = sapp (CScript.raw_iter s) (smap (shift (len s)) (CScript.raw_iter t)).
Proof.
  intros Hout. rewrite !raw_iter_is_from in *.
  pose proof (len_nonneg s). pose proof (len_nonneg t).
  rewrite (raw_iter_from_app_l s t (length s) 0);
    [|lia|unfold len; lia|exact Hout].
  f_equal.
  replace (len s) with (len s + 0) at 1 by lia.
  apply (raw_iter_from_app_r s t (length t)); unfold len; lia.
Qed.

(** Iterating a concatenation: when the left script raw-iterates without
    error, raw iteration of [s ++ t] is that of [s] followed by that of
    [t] with every offset moved by [len(s)], and cooked iteration is that
    of [s] followed by that of [t] (including the error [t] may end in). *)
Theorem iter_concatenation :
  forall s t : bytes,
    outcome (CScript.raw_iter s) = None ->
    CScript.raw_iter (s ++ t)
    = sapp (CScript.raw_iter s) (smap (shift (len s)) (CScript.raw_iter t))
    /\ CScript.iter (s ++ t) = sapp (CScript.iter s) (CScript.iter t).
Proof.
  intros s t Hout. split; [now apply raw_iter_app_eq|].
  unfold CScript.iter.
  now rewrite raw_iter_app_eq, cooked_sapp, cooked_shift.
Qed.

Lemma iter_concatenation_witness :
  CScript.raw_iter ([x01; x07; OP_DUP] ++ [x4c; x01])
  = sapp (CScript.raw_iter [x01; x07; OP_DUP])
      (smap (shift (len [x01; x07; OP_DUP])) (CScript.raw_iter [x4c; x01]))
  /\ CScript.iter ([x01; x07; OP_DUP] ++ [x4c; x01])
     = sapp (CScript.iter [x01; x07; OP_DUP]) (CScript.iter [x4c; x01]).
Proof.
  apply (iter_concatenation [x01; x07; OP_DUP] [x4c; x01]). reflexivity.
Defined.

(* ------------------------------------------------------------------ *)
(** ** Appending to a script, numbers in a script *)

Lemma iter_single (enc : bytes) (it : item) :
  (forall pre rest,
      iter_from (pre ++ enc ++ rest) (len pre)
      = SCons it (iter_from (pre ++ enc ++ rest) (len pre + len enc))) ->
  CScript.iter enc = SCons it SNil.
Proof.
  intros F. specialize (F [] []). cbn [app] in F. rewrite app_nil_r in F.
  change (len (@nil byte)) with 0 in F.
  rewrite iter_is_from, F. f_equal.
  unfold iter_from. change (0 + len enc) with (len enc).
  now rewrite raw_iter_from_len.
Qed.

(** [script + value]: when [script] iterates without error and [value] is
    an opcode other than a push opcode, an integer or a byte string, the sum
    is built and its cooked iteration is that of [script] followed by the
    one item [value] is read back as. *)
Theorem add_appends_one_item :
  forall (bn2vch : Z -> bytes) (self : bytes) (v : value),
    outcome (CScript.iter self) = None ->
    readable bn2vch v = true ->
    exists s' : bytes,
      CScript_add bn2vch self (inject v) = Return s'
      /\ CScript.iter s'
         = sapp (CScript.iter self) (SCons (logical bn2vch v) SNil).
Proof.
  intros bn2vch self v Hout R.
  unfold CScript.iter in Hout. rewrite outcome_cooked in Hout.
  destruct (coerce_read_back bn2vch v R) as (enc & E & F).
  exists (self ++ enc). unfold CScript_add. rewrite E. cbn [bind].
  split; [reflexivity|].
  unfold CScript.iter at 1.
  rewrite raw_iter_app_eq, cooked_sapp, cooked_shift by exact Hout.
  fold (CScript.iter self). fold (CScript.iter enc).
  now rewrite (iter_single enc _ F).
Qed.

Lemma add_appends_one_item_witness :
  exists s' : bytes,
    CScript_add (fun _ : Z => []) [x01; x07; OP_DUP] (inject (VInt 3))
    = Return s'
    /\ CScript.iter s'
       = sapp (CScript.iter [x01; x07; OP_DUP])
           (SCons (logical (fun _ : Z => []) (VInt 3)) SNil).
Proof.
  apply (add_appends_one_item (fun _ : Z => []) [x01; x07; OP_DUP] (VInt 3));
    reflexivity.
Defined.

(** A [CScriptNum] built into a script: for [|value| < 2^599] the coerced
    bytes are one push (the length byte [encode] prepends is the push
    opcode); cooked iteration yields the bytes after the first one, and
    [decode] of the coerced bytes gives [value] back. *)
Theorem scriptnum_in_script :
  forall (bn2vch : Z -> bytes) (value : Z),
    Z.abs value < 2 ^ 599 ->
    exists enc : bytes,
      CScript.coerce_instance bn2vch (CoNum value) = Return enc
      /\ CScript.iter enc = SCons (IBytes (tl enc)) SNil
      /\ CScriptNum.decode enc = value.
Proof.
  intros bn2vch n Hn. cbn [CScript.coerce_instance].
  destruct (Z.eqb_spec n 0) as [->|Hne].
  - exists [OP_0]. repeat split.
  - rewrite encode_unfold by assumption. cbv zeta.
    set (a := Z.abs n) in *.
    assert (Ha : 0 < a) by (unfold a; lia).
    set (bs := le_bytes (S (Z.to_nat (Z.log2 a))) a).
    assert (Hbs : bs <> []) by (apply le_bytes_nonempty; lia).
    assert (Hv : le_value bs = a) by (apply le_bytes_value, log2_fuel; lia).
    assert (Hlast : int_of_byte (last bs x00) <> 0).
    { apply le_bytes_last. pose proof (log2_fuel a Ha). lia. }
    pose proof (sign_payload_lower n bs Hbs Hv Hlast) as Low.
    set (r := sign_payload (n <? 0) bs) in *.
    pose proof (len_nonneg r) as Hr.
    assert (L : len r <= 75).
    { assert (256 ^ (len r - 1) < 256 ^ 75).
      { apply Z.le_lt_trans with (2 * Z.abs n); [exact Low|].
        change (256 ^ 75) with (2 * 2 ^ 599). fold a. lia. }
      destruct (Z.le_gt_cases (len r) 75) as [|G]; [assumption|].
      assert (256 ^ 75 <= 256 ^ (len r - 1))
        by (apply Z.pow_le_mono_r; lia).
      lia. }
    destruct (Z.leb_spec (len r) 255); [|lia].
    eexists. split; [reflexivity|]. split.
    + cbn [tl]. apply iter_single. intros pre rest.
      assert (I : int_of_byte (byte_of_int (len r)) = len r)
        by (apply int_of_byte_of_int; lia).
      pose proof (raw_iter_from_push pre (byte_of_int (len r)) [] r rest)
        as P. cbv zeta in P. cbn [app] in P.
      unfold iter_from. cbn [app]. rewrite P.
      * reflexivity.
      * lia.
      * rewrite hdr_len_inline by lia. reflexivity.
      * rewrite I. destruct (Z.ltb_spec (len r) 76); [reflexivity|lia].
    + apply sign_payload_decode; assumption.
Qed.

Lemma scriptnum_in_script_witness :
  exists enc : bytes,
    CScript.coerce_instance (fun _ : Z => []) (CoNum (-1000)) = Return enc
    /\ CScript.iter enc = SCons (IBytes (tl enc)) SNil
    /\ CScriptNum.decode enc = -1000.
Proof.
  apply (scriptnum_in_script (fun _ : Z => []) (-1000)). reflexivity.
Defined.

(* ------------------------------------------------------------------ *)
(** ** Scripts that only push *)

Lemma encode_small n : 1 <= n <= 16 -> exists e, CScriptNum.encode n = Return e.
Proof.
  intros H.
  assert (E : n = Z.of_nat (Z.to_nat n)) by lia.
  assert (B : (1 <= Z.to_nat n <= 16)%nat) by lia.
  revert E B. generalize (Z.to_nat n) as k. intros k -> B.
  destruct k as [|k]; [lia|].
  do 16 (destruct k as [|k]; [eexists; reflexivity|]).
  lia.
Qed.

Lemma interpret_loop_pushes items : forall stack hb,
  Forall item_ok items -> forallb is_push items = true ->
  interpret_loop (stream_of_list items) stack hb = Return true.
Proof.
  induction items as [|it items IH]; intros stack hb F P;
    cbn [stream_of_list interpret_loop]; [reflexivity|].
  inversion F as [|? ? Hit F']; subst.
  cbn [forallb] in P. apply andb_true_iff in P. destruct P as [Pit P].
  destruct it as [d|n|op]; [| |discriminate Pit].
  - rewrite handle_bytes. cbn [negb]. now apply IH.
  - rewrite handle_int.
    destruct (ConditionStack.all_true max_uint32 hb).
    + destruct (encode_small n Hit) as [e E]. rewrite E. cbn [bind negb].
      now apply IH.
    + cbn [negb]. now apply IH.
Qed.

Lemma iter_items_ok self : Forall item_ok (yielded (CScript.iter self)).
Proof.
  unfold CScript.iter. apply cooked_items_ok.
  assert (W : walk_ok self 0 (yielded (CScript.raw_iter self)))
    by (apply raw_iter_loop_walk; lia).
  eapply Forall_impl; [|eapply walk_ok_tuples, W].
  intros [[op data] idx] (_ & _ & H) E. now apply H.
Qed.

Lemma yielded_stream_of_list {A} (l : list A) :
  yielded (stream_of_list l) = l.
Proof. induction l; cbn; congruence. Qed.

(** A script whose cooked iteration ends without error and yields only
    push data and small integers evaluates to [True]: nothing in it can
    fail, and the final stack is not inspected. *)
Theorem interpret_push_only :
  forall (s : bytes) (items : list item),
    CScript.iter s = stream_of_list items ->
    forallb is_push items = true ->
    interpret s = Return true.
Proof.
  intros s items E P. unfold interpret. rewrite E.
  apply interpret_loop_pushes; [|exact P].
  rewrite <- (yielded_stream_of_list items), <- E. apply iter_items_ok.
Qed.

Lemma interpret_push_only_witness :
  interpret [x02; xaa; xbb; x00; x55] = Return true.
Proof.
  apply (interpret_push_only [x02; xaa; xbb; x00; x55]
           [IBytes [xaa; xbb]; IBytes []; IInt 5]); reflexivity.
Defined.

(* ------------------------------------------------------------------ *)
(** ** More on the signature-operation count *)

Lemma sigop_loop_nonaccurate raw : forall n last,
  CScript.sigop_loop false raw n last =
    match outcome raw with
    | None => Return (n + zsum (map sigop_cost (yielded raw)))
    | Some e => Raise e
    end.
Proof.
  induction raw as [|[[op data] idx] rest IH|e]; intros n last;
    cbn [CScript.sigop_loop outcome yielded map zsum sigop_cost andb].
  - f_equal. lia.
  - destruct ((op == OP_CHECKSIG) || (op == OP_CHECKSIGVERIFY));
      [|destruct ((op == OP_CHECKMULTISIG) || (op == OP_CHECKMULTISIGVERIFY))];
      cbn [bind]; rewrite IH; destruct (outcome rest); try reflexivity;
      f_equal; lia.
  - reflexivity.
Qed.

Lemma sigop_cost_range it : 0 <= sigop_cost it <= 20.
Proof.
  destruct it as [[op data] idx]. unfold sigop_cost.
  destruct (_ || _); [lia|]. destruct (_ || _); lia.
Qed.

Lemma zsum_costs l : 0 <= zsum (map sigop_cost l) <= 20 * len l.
Proof.
  induction l as [|it l IH]; cbn [map zsum].
  - change (len (@nil instr)) with 0. lia.
  - rewrite len_cons. pose proof (sigop_cost_range it). lia.
Qed.

(** In non-accurate mode the count is 1 per single-signature check plus 20
    per multi-signature check over the instructions of the script; it is
    between 0 and 20 times the script length; and when raw iteration raises,
    the count raises the same exception instead of returning. *)
Theorem sigop_count_conservative :
  forall self : bytes,
    CScript.GetSigOpCount self false =
      match outcome (CScript.raw_iter self) with
      | None =>
          Return (zsum (map sigop_cost (yielded (CScript.raw_iter self))))
      | Some e => Raise e
      end
    /\ 0 <= zsum (map sigop_cost (yielded (CScript.raw_iter self)))
       <= 20 * len self.
Proof.
  intros self. split.
  - unfold CScript.GetSigOpCount. rewrite sigop_loop_nonaccurate.
    destruct (outcome (CScript.raw_iter self)); reflexivity.
  - pose proof (zsum_costs (yielded (CScript.raw_iter self))) as Z.
    assert (W : walk_ok self 0 (yielded (CScript.raw_iter self)))
      by (apply raw_iter_loop_walk; lia).
    pose proof (walk_ok_offsets self _ 0 W) as (_ & _ & L).
    pose proof (len_nonneg self). lia.
Qed.

Lemma decode_op_n_multisig op :
  (op == OP_CHECKMULTISIG) || (op == OP_CHECKMULTISIGVERIFY) = true ->
  CScriptOp.decode_op_n op = Raise ValueError.
Proof.
  intros H. apply orb_true_iff in H.
  destruct H as [H|H]; apply byte_eqb_eq in H; subst; reflexivity.
Qed.

Lemma sigop_loop_accurate raw : forall n last,
  match CScript.sigop_loop true raw n last with
  | Return m => CScript.sigop_loop false raw n last = Return m
  | Raise e => e = ValueError \/ outcome raw = Some e
  end.
Proof.
  induction raw as [|[[op data] idx] rest IH|e]; intros n last;
    cbn [CScript.sigop_loop outcome andb]; auto.
  destruct ((op == OP_CHECKSIG) || (op == OP_CHECKSIGVERIFY)).
  { cbn [bind]. apply IH. }
  destruct ((op == OP_CHECKMULTISIG) || (op == OP_CHECKMULTISIGVERIFY)) eqn:M.
  - destruct ((OP_1 <=! last) && (last <=! OP_16)).
    + rewrite decode_op_n_multisig by exact M. cbn [bind]. auto.
    + cbn [bind]. apply IH.
  - cbn [bind]. apply IH.
Qed.

(** Accurate mode never returns anything but the conservative count: when
    it returns, non-accurate mode returns the same number; otherwise it
    raises [ValueError] (a multi-signature check that follows [OP_1] ..
    [OP_16]) or the exception raw iteration raises. *)
Theorem sigop_count_accurate_mode :
  forall self : bytes,
    match CScript.GetSigOpCount self true with
    | Return m => CScript.GetSigOpCount self false = Return m
    | Raise e => e = ValueError \/ outcome (CScript.raw_iter self) = Some e
    end.
Proof.
  intros self. unfold CScript.GetSigOpCount. apply sigop_loop_accurate.
Qed.

(* ------------------------------------------------------------------ *)
(** ** More on byte-pattern deletion *)

Lemma FindAndDelete_loop_raises script sig raw e : forall r last skip,
  outcome raw = Some e ->
  FindAndDelete_loop script sig raw r last skip = Raise e.
Proof.
  induction raw as [|[[op data] idx] rest IH|e']; intros r last skip H;
    cbn [FindAndDelete_loop outcome] in *.
  - discriminate H.
  - now apply IH.
  - now injection H as ->.
Qed.

(** When raw iteration of the script raises, [FindAndDelete] raises the
    same exception: no partial result is returned. *)
Theorem find_and_delete_raises :
  forall (script sig : bytes) (e : exn),
    outcome (CScript.raw_iter script) = Some e ->
    FindAndDelete script sig = Raise e.
Proof.
  intros script sig e H. unfold FindAndDelete.
  now rewrite (FindAndDelete_loop_raises script sig _ e [] 0 true H).
Qed.

Lemma find_and_delete_raises_witness :
  FindAndDelete [OP_DUP; x02; x01] [OP_DUP]
  = Raise (CScriptTruncatedPushDataError [x01]).
Proof.
  apply (find_and_delete_raises [OP_DUP; x02; x01] [OP_DUP]). reflexivity.
Defined.

Lemma FindAndDelete_result script sig :
  outcome (CScript.raw_iter script) = None ->
  FindAndDelete script sig
  = Return (concat (map (source script)
                      (filter (kept script sig)
                         (yielded (CScript.raw_iter script))))).
Proof.
  intros Hout. unfold FindAndDelete, CScript.raw_iter in *.
  destruct (FindAndDelete_loop_spec script sig (length script) 0 [] 0 true)
    as (r' & last' & skip' & E & F);
    [lia|apply len_nonneg|unfold len; lia|exact Hout|].
  rewrite E. cbn [bind]. rewrite F. reflexivity.
Qed.

Lemma sources_whole script :
  outcome (CScript.raw_iter script) = None ->
  concat (map (source script) (yielded (CScript.raw_iter script))) = script.
Proof.
  intros Hout. unfold CScript.raw_iter in *.
  rewrite sources_tile; [apply slice_whole| |unfold len; lia|exact Hout].
  pose proof (len_nonneg script). lia.
Qed.

Lemma len_concat_filter (f : instr -> bytes) (p : instr -> bool) l :
  len (concat (map f (filter p l))) <= len (concat (map f l)).
Proof.
  induction l as [|it l IH]; cbn [filter map concat]; [lia|].
  destruct (p it); cbn [map concat]; rewrite !len_app;
    pose proof (len_nonneg (f it)); lia.
Qed.

(** For a script that raw-iterates without error:
    - with the empty pattern every instruction matches and the result is
      the empty script;
    - when no instruction offset matches the pattern the script is returned
      unchanged;
    - in every case the result is no longer than the script. *)
Theorem find_and_delete_edges :
  forall script sig : bytes,
    outcome (CScript.raw_iter script) = None ->
    FindAndDelete script [] = Return []
    /\ (forallb (fun it => negb (matches script sig it))
          (yielded (CScript.raw_iter script)) = true ->
        FindAndDelete script sig = Return script)
    /\ exists r : bytes,
         FindAndDelete script sig = Return r /\ len r <= len script.
Proof.
  intros script sig Hout. split; [|split].
  - rewrite FindAndDelete_result by exact Hout.
    assert (E : filter (kept script []) (yielded (CScript.raw_iter script))
                = []).
    { induction (yielded (CScript.raw_iter script)) as [|[[op d] i] l IH];
        [reflexivity|].
      cbn [filter]. unfold kept at 1. cbn [matches].
      change (len (@nil byte)) with 0.
      rewrite slice_empty by lia. exact IH. }
    now rewrite E.
  - intros H. rewrite FindAndDelete_result by exact Hout.
    assert (E : filter (kept script sig) (yielded (CScript.raw_iter script))
                = yielded (CScript.raw_iter script)).
    { induction (yielded (CScript.raw_iter script)) as [|it l IH];
        [reflexivity|].
      cbn [forallb] in H. apply andb_true_iff in H. destruct H as [H1 H2].
      cbn [filter]. unfold kept at 1. rewrite H1. f_equal. now apply IH. }
    rewrite E. f_equal. now apply sources_whole.
  - eexists. split; [now apply FindAndDelete_result|].
    apply Z.le_trans
      with (len (concat (map (source script)
                           (yielded (CScript.raw_iter script)))));
      [apply len_concat_filter|].
    rewrite (sources_whole script Hout). lia.
Qed.

Lemma find_and_delete_edges_witness :
  let script := [x01; x76; OP_DUP; OP_EQUALVERIFY] in
  let sig := [OP_SHA256] in
  FindAndDelete script [] = Return []
  /\ FindAndDelete script sig = Return script
  /\ exists r : bytes,
       FindAndDelete script sig = Return r /\ len r <= len script.
Proof.
  destruct (find_and_delete_edges [x01; x76; OP_DUP; OP_EQUALVERIFY]
              [OP_SHA256] eq_refl) as (E & N & B).
  split; [exact E|]. split; [exact (N eq_refl)|exact B].
Defined.

(* ------------------------------------------------------------------ *)
(** ** Truncated pushes: what is yielded before the error *)

Lemma outcome_sapp {A} (a b : stream A) :
  outcome (sapp a b)
  = match outcome a with None => outcome b | Some e => Some e end.
Proof. induction a; cbn; auto. Qed.

Lemma outcome_smap {A B} (f : A -> B) (s : stream A) :
  outcome (smap f s) = outcome s.
Proof. induction s; cbn; auto. Qed.

(** A step that stays inside a prefix of the buffer is the same step on
    the prefix alone. *)
Lemma raw_step_prefix t rest j it j' :
  0 <= j < len t ->
  CScript.raw_step (t ++ rest) j = Return (it, j') ->
  j' <= len t ->
  CScript.raw_step t j = Return (it, j').
Proof.
  intros Hj S Hj'.
  pose proof (len_nonneg rest) as Hr.
  assert (Hj2 : 0 <= j < len (t ++ rest)) by (rewrite len_app; lia).
  pose proof (raw_step_return _ _ _ _ Hj2 S) as (_ & E & _).
  pose proof (getitem_app_l t rest j Hj) as G.
  pose proof (hdr_len_nonneg (getitem t j)) as Hh.
  pose proof (declared_size_nonneg (t ++ rest) j) as Hd.
  rewrite raw_step_spec in S by exact Hj2.
  rewrite raw_step_spec by exact Hj. cbv zeta in *.
  unfold classify, extent in *. rewrite G in *.
  destruct (Z.gtb_spec (int_of_byte (getitem t j)) 78); [exact S|].
  assert (D : declared_size (t ++ rest) j = declared_size t j).
  { unfold declared_size. cbv zeta. rewrite G.
    destruct (int_of_byte (getitem t j) <? 76); [reflexivity|].
    rewrite slice_app_l by lia. reflexivity. }
  rewrite D in *.
  destruct (Z.ltb_spec (len (t ++ rest)) (j + 1 + hdr_len (getitem t j)));
    [discriminate S|].
  destruct (Z.ltb_spec (len (t ++ rest))
              (j + 1 + hdr_len (getitem t j) + declared_size t j));
    [discriminate S|].
  destruct (Z.ltb_spec (len t) (j + 1 + hdr_len (getitem t j))); [lia|].
  destruct (Z.ltb_spec (len t)
              (j + 1 + hdr_len (getitem t j) + declared_size t j)); [lia|].
  rewrite slice_app_l in S by lia. exact S.
Qed.

Lemma slice_0_from s i :
  0 <= i -> s = slice s 0 i ++ slice_from s i.
Proof.
  intros Hi. unfold slice, slice_from. cbn [Z.to_nat skipn].
  rewrite Z.sub_0_r. symmetry. apply firstn_skipn.
Qed.

Lemma slice_from_split s i j :
  0 <= i <= j -> slice_from s i = slice s i j ++ slice_from s j.
Proof.
  intros H. unfold slice, slice_from.
  replace (Z.to_nat j) with (Z.to_nat (j - i) + Z.to_nat i)%nat by lia.
  rewrite <- skipn_skipn. symmetry. apply firstn_skipn.
Qed.

(** The bytes before an instruction boundary iterate without error. *)
Lemma boundary_prefix_clean self i :
  boundary self i ->
  outcome (CScript.raw_iter (slice self 0 i)) = None.
Proof.
  induction 1 as [|j B IH Hlt C]; [reflexivity|].
  pose proof (boundary_nonneg self j B) as Hj.
  destruct (classify_whole self j C) as [He Hin].
  specialize (Hin ltac:(lia)).
  set (e := extent self j) in *.
  set (s := slice self 0 j) in *.
  set (t := slice self j (j + e)).
  set (rest := slice_from self (j + e)).
  assert (Ls : len s = j) by (unfold s; rewrite len_slice; lia).
  assert (Lt : len t = e) by (unfold t; rewrite len_slice; lia).
  assert (Es : self = s ++ t ++ rest).
  { unfold s, t, rest. rewrite <- slice_from_split by lia.
    apply slice_0_from. lia. }
  rewrite (slice_split self 0 j (j + e)) by lia. fold s. fold t.
  (* the step of the whole script at [j] *)
  destruct (raw_iter_from_whole self j ltac:(lia) C) as [it U].
  rewrite raw_iter_from_unfold in U by lia.
  destruct (Z.ltb_spec j (len self)); [|lia].
  destruct (CScript.raw_step self j) as [[it1 j1]|e1] eqn:S;
    [|discriminate U].
  pose proof (raw_step_return self j it1 j1 ltac:(lia) S) as (_ & Ej1 & _).
  fold e in Ej1.
  (* the same step in [t ++ rest], then in [t] *)
  rewrite Es in S at 1.
  replace j with (len s + 0) in S at 1 by lia.
  rewrite raw_step_app_r in S
    by (rewrite len_app; pose proof (len_nonneg rest); lia).
  destruct (CScript.raw_step (t ++ rest) 0) as [[it0 j0]|e0] eqn:S0;
    [|discriminate S].
  injection S as _ Ej0.
  apply raw_step_prefix in S0; [|lia|lia].
  assert (Rt : CScript.raw_iter t = SCons it0 SNil).
  { rewrite raw_iter_is_from, raw_iter_from_unfold by lia.
    destruct (Z.ltb_spec 0 (len t)); [|lia].
    rewrite S0. f_equal.
    replace j0 with (len t) by lia. apply raw_iter_from_len. }
  rewrite raw_iter_app_eq by exact IH.
  rewrite outcome_sapp, IH, outcome_smap, Rt. reflexivity.
Qed.

(** A script that ends in a push the walk cannot complete: everything
    before is yielded, then the error is raised. *)
Lemma raw_iter_truncated_tail s t e :
  outcome (CScript.raw_iter s) = None -> 0 < len t ->
  CScript.raw_step (s ++ t) (len s) = Raise e ->
  CScript.raw_iter (s ++ t) = sapp (CScript.raw_iter s) (SRaise e)
  /\ CScript.iter (s ++ t) = sapp (CScript.iter s) (SRaise e).
Proof.
  intros Hout Ht S.
  replace (len s) with (len s + 0) in S by lia.
  rewrite raw_step_app_r in S by lia.
  destruct (CScript.raw_step t 0) as [[it0 j0]|e0] eqn:S0;
    [discriminate S|]. injection S as ->.
  assert (Rt : CScript.raw_iter t = SRaise e).
  { rewrite raw_iter_is_from, raw_iter_from_unfold by lia.
    destruct (Z.ltb_spec 0 (len t)); [|lia]. now rewrite S0. }
  assert (R : CScript.raw_iter (s ++ t)
              = sapp (CScript.raw_iter s) (SRaise e)).
  { rewrite raw_iter_app_eq by exact Hout. now rewrite Rt. }
  split; [exact R|].
  unfold CScript.iter. rewrite R, cooked_sapp. reflexivity.
Qed.

Lemma cooked_of_yielded raw :
  Forall2 cooked_of (yielded raw) (yielded (CScript.cooked raw)).
Proof.
  induction raw as [|[[op data] idx] rest IH|e];
    cbn [yielded CScript.cooked]; try constructor.
  destruct data as [d|]; cbn [yielded].
  - constructor; [reflexivity|exact IH].
  - destruct (CScriptOp.is_small_int op) eqn:S.
    + rewrite decode_op_n_small by exact S. cbn [yielded].
      constructor; [right; eexists; reflexivity|exact IH].
    + cbn [yielded]. constructor; [left; reflexivity|exact IH].
Qed.

(** C6 (amended): at an instruction boundary [i] of the walk, with
    [before] the bytes of the script in front of [i]:
    - [before] iterates without error and its instructions tile it;
    - a push whose length header runs past the end makes raw and cooked
      iteration yield exactly what they yield on [before] and then raise
      [CScriptInvalidError], which carries no data;
    - a push whose declared payload runs past the end makes both yield
      exactly what they yield on [before] and then raise
      [CScriptTruncatedPushDataError] carrying the partial payload, which is
      shorter than declared;
    - no short read is yielded: every push raw iteration yields has its
      whole declared payload, and every item cooked iteration yields is made
      from the raw tuple at the same position (the data of a push
      unchanged). *)
Theorem truncated_push_raises :
  forall (self : bytes) (i : Z),
    boundary self i -> i < len self ->
    let before := slice self 0 i in
    (classify self i = HeaderTruncated ->
       CScript.raw_iter self
       = sapp (CScript.raw_iter before) (SRaise CScriptInvalidError)
       /\ CScript.iter self
          = sapp (CScript.iter before) (SRaise CScriptInvalidError)
       /\ outcome (CScript.raw_iter self) = Some CScriptInvalidError
       /\ outcome (CScript.iter self) = Some CScriptInvalidError)
    /\ (classify self i = PayloadTruncated ->
        let partial := slice_from self (i + 1 + hdr_len (getitem self i)) in
        CScript.raw_iter self
        = sapp (CScript.raw_iter before)
            (SRaise (CScriptTruncatedPushDataError partial))
        /\ CScript.iter self
           = sapp (CScript.iter before)
               (SRaise (CScriptTruncatedPushDataError partial))
        /\ outcome (CScript.raw_iter self)
           = Some (CScriptTruncatedPushDataError partial)
        /\ outcome (CScript.iter self)
           = Some (CScriptTruncatedPushDataError partial)
        /\ len partial < declared_size self i)
    /\ outcome (CScript.raw_iter before) = None
    /\ outcome (CScript.iter before) = None
    /\ concat (map (source before) (yielded (CScript.raw_iter before)))
       = before
    /\ Forall (full_payload self) (yielded (CScript.raw_iter self))
    /\ Forall2 cooked_of (yielded (CScript.raw_iter self))
         (yielded (CScript.iter self)).
Proof.
  intros self i B Hlt before.
  pose proof (boundary_nonneg self i B) as Hi.
  pose proof (boundary_prefix_clean self i B) as Clean. fold before in Clean.
  assert (Lb : len before = i) by (unfold before; rewrite len_slice; lia).
  assert (E : self = before ++ slice_from self i)
    by (apply slice_0_from; lia).
  assert (Lt : 0 < len (slice_from self i))
    by (rewrite len_slice_from; lia).
  assert (Tail : forall e,
             CScript.raw_step self i = Raise e ->
             CScript.raw_iter self = sapp (CScript.raw_iter before) (SRaise e)
             /\ CScript.iter self = sapp (CScript.iter before) (SRaise e)).
  { intros e S.
    pose proof (raw_iter_truncated_tail before (slice_from self i) e
                  Clean Lt) as T.
    rewrite <- E, Lb in T. now apply T. }
  assert (Out : forall e,
             CScript.raw_step self i = Raise e ->
             outcome (CScript.raw_iter self) = Some e
             /\ outcome (CScript.iter self) = Some e).
  { intros e S. destruct (Tail e S) as [R1 R2].
    unfold CScript.iter in *. rewrite outcome_cooked, R1, outcome_sapp, Clean.
    split; reflexivity. }
  pose proof (raw_step_spec self i ltac:(lia)) as Spec. cbv zeta in Spec.
  split; [|split; [|split; [|split; [|split; [|split]]]]].
  - intros C. rewrite C in Spec.
    destruct (Tail _ Spec) as [R1 R2]. destruct (Out _ Spec) as [O1 O2].
    auto.
  - intros C. cbv zeta. rewrite C in Spec.
    destruct (Tail _ Spec) as [R1 R2]. destruct (Out _ Spec) as [O1 O2].
    repeat (split; [assumption|]).
    pose proof (hdr_len_nonneg (getitem self i)).
    rewrite len_slice_from by lia.
    unfold classify in C.
    destruct (int_of_byte (getitem self i) >? 78); [discriminate|].
    destruct (Z.ltb_spec (len self) (i + 1 + hdr_len (getitem self i)));
      [discriminate|].
    destruct (Z.ltb_spec (len self)
                (i + 1 + hdr_len (getitem self i) + declared_size self i));
      [lia|discriminate].
  - exact Clean.
  - unfold CScript.iter. now rewrite outcome_cooked.
  - now apply sources_whole.
  - apply raw_iter_loop_full. lia.
  - apply cooked_of_yielded.
Qed.

Lemma truncated_push_raises_witness :
  (CScript.raw_iter truncated_example
   = SCons (x01, Some [x01], 0)
       (SRaise (CScriptTruncatedPushDataError [x01]))
   /\ CScript.iter truncated_example
      = SCons (IBytes [x01]) (SRaise (CScriptTruncatedPushDataError [x01]))
   /\ len [x01] < declared_size truncated_example 2)
  /\ (CScript.raw_iter short_header_example
      = SCons (x01, Some [x01], 0) (SRaise CScriptInvalidError)
      /\ CScript.iter short_header_example
         = SCons (IBytes [x01]) (SRaise CScriptInvalidError)).
Proof.
  assert (B : forall s, extent s 0 = 2 -> 0 < len s ->
                classify s 0 = Complete -> boundary s 2).
  { intros s E L C. rewrite <- E. apply (boundary_next s 0).
    - apply boundary_start.
    - exact L.
    - right. exact C. }
  split.
  - destruct (proj1 (proj2 (truncated_push_raises truncated_example 2
                              (B truncated_example eq_refl eq_refl eq_refl)
                              eq_refl))
                eq_refl) as (R1 & R2 & _ & _ & L).
    split; [exact R1|]. split; [exact R2|exact L].
  - destruct (proj1 (truncated_push_raises short_header_example 2
                       (B short_header_example eq_refl eq_refl eq_refl)
                       eq_refl)
                eq_refl) as (R1 & R2 & _).
    split; [exact R1|exact R2].
Defined.
